(** * OmniWire-MCP: circuit breaker, sentinel registry and item normalisation

    A shallow embedding of
      - [services/sentinel/circuit-breaker.ts]  (class [CircuitBreaker]),
      - [services/sentinel/index.ts]            (class [SentinelService]),
      - [services/parser/adapters/{rss,json,html}.ts] (identifier derivation),
      - [mcp/tools.ts]                          (the [fetch-news] pipeline),
    followed by the properties established about them.

    Conventions.
      - A [Date] is its millisecond timestamp, a [Z]; [null] is [None].
      - Every public method is synchronous.  The wall clock is an input: a
        method that reads [new Date()] / [Date.now()] takes the reading as
        its argument [now], and all reads inside one call see that value.
      - Objects mutated in place become values returned by the operation.
      - Logging is not modelled. *)

From stdpp Require Import gmap strings list fin_maps pretty sorting.
From Stdlib Require Import ZArith QArith Lia Ascii.

Local Open Scope Z_scope.
Set Warnings "-register-all".

(* ===================================================================== *)
(** ** services/sentinel/types.ts *)

Inductive CircuitState := CLOSED | OPEN | HALF_OPEN.

#[global] Instance CircuitState_eq_dec : EqDecision CircuitState.
Proof. solve_decision. Defined.

Inductive HealthStatus := HEALTHY | DEGRADED | UNHEALTHY.

#[global] Instance HealthStatus_eq_dec : EqDecision HealthStatus.
Proof. solve_decision. Defined.

Record CircuitBreakerConfig := mkConfig {
  failureThreshold : Z;
  recoveryTimeoutMs : Z;
  successThreshold : Z
}.

(* ===================================================================== *)
(** ** services/sentinel/circuit-breaker.ts *)

Module CircuitBreaker.

(** The private fields of the class, with the two constructor arguments. *)
Record t := mk {
  sourceId : string;
  config : CircuitBreakerConfig;
  state : CircuitState;
  failureCount : Z;
  successCount : Z;
  lastFailureTime : option Z;
  lastStateChange : Z;
  nextAttemptTime : option Z
}.

(** [new CircuitBreaker(sourceId, config)]; [lastStateChange] is
    initialised with [new Date()]. *)
Definition new (sid : string) (cfg : CircuitBreakerConfig) (now : Z) : t :=
  {| sourceId := sid; config := cfg; state := CLOSED;
     failureCount := 0; successCount := 0; lastFailureTime := None;
     lastStateChange := now; nextAttemptTime := None |}.

(** Field assignments. *)
Definition set_state (s : CircuitState) (b : t) : t :=
  mk (sourceId b) (config b) s (failureCount b) (successCount b)
     (lastFailureTime b) (lastStateChange b) (nextAttemptTime b).
Definition set_failureCount (n : Z) (b : t) : t :=
  mk (sourceId b) (config b) (state b) n (successCount b)
     (lastFailureTime b) (lastStateChange b) (nextAttemptTime b).
Definition set_successCount (n : Z) (b : t) : t :=
  mk (sourceId b) (config b) (state b) (failureCount b) n
     (lastFailureTime b) (lastStateChange b) (nextAttemptTime b).
Definition set_lastFailureTime (d : option Z) (b : t) : t :=
  mk (sourceId b) (config b) (state b) (failureCount b) (successCount b)
     d (lastStateChange b) (nextAttemptTime b).
Definition set_lastStateChange (d : Z) (b : t) : t :=
  mk (sourceId b) (config b) (state b) (failureCount b) (successCount b)
     (lastFailureTime b) d (nextAttemptTime b).
Definition set_nextAttemptTime (d : option Z) (b : t) : t :=
  mk (sourceId b) (config b) (state b) (failureCount b) (successCount b)
     (lastFailureTime b) (lastStateChange b) d.

(** [private shouldAttemptRecovery()] *)
Definition shouldAttemptRecovery (now : Z) (b : t) : bool :=
  match state b, nextAttemptTime b with
  | OPEN, Some nxt => bool_decide (nxt <= now)
  | _, _ => false
  end.

(** [private transitionTo(newState)] *)
Definition transitionTo (now : Z) (newState : CircuitState) (b : t) : t :=
  let b := set_state newState b in
  let b := set_lastStateChange now b in
  let b :=
    if bool_decide (newState = OPEN)
    then set_nextAttemptTime (Some (now + recoveryTimeoutMs (config b))) b
    else set_nextAttemptTime None b in
  if bool_decide (newState = CLOSED)
  then set_successCount 0 (set_failureCount 0 b)
  else b.

(** [public getState()]: the value returned and the breaker afterwards. *)
Definition getState (now : Z) (b : t) : CircuitState * t :=
  let b :=
    if bool_decide (state b = OPEN) && shouldAttemptRecovery now b
    then transitionTo now HALF_OPEN b
    else b in
  (state b, b).

(** [public canExecute()] *)
Definition canExecute (now : Z) (b : t) : bool * t :=
  let '(currentState, b) := getState now b in
  match currentState with
  | CLOSED => (true, b)
  | HALF_OPEN => (true, b)
  | OPEN =>
      if shouldAttemptRecovery now b
      then (true, transitionTo now HALF_OPEN b)
      else (false, b)
  end.

(** [public recordSuccess(_responseTimeMs?)]; the argument is unused. *)
Definition recordSuccess (now : Z) (b : t) : t :=
  let b := set_successCount (successCount b + 1) b in
  let b := set_failureCount 0 b in
  if bool_decide (state b = HALF_OPEN) then
    if bool_decide (successThreshold (config b) <= successCount b)
    then transitionTo now CLOSED b
    else b
  else b.

(** [public recordFailure(error)]; [error] only reaches the log. *)
Definition recordFailure (now : Z) (error : string) (b : t) : t :=
  let b := set_failureCount (failureCount b + 1) b in
  let b := set_successCount 0 b in
  let b := set_lastFailureTime (Some now) b in
  if bool_decide (state b = HALF_OPEN) then transitionTo now OPEN b
  else if bool_decide (failureThreshold (config b) <= failureCount b)
  then transitionTo now OPEN b
  else b.

(** [public reset()] *)
Definition reset (now : Z) (b : t) : t :=
  let b := transitionTo now CLOSED b in
  let b := set_failureCount 0 b in
  set_successCount 0 b.

(** The object literal returned by [getMetrics()]. *)
Record Metrics := mkMetrics {
  m_state : CircuitState;
  m_failureCount : Z;
  m_successCount : Z;
  m_lastFailureTime : option Z;
  m_lastStateChange : Z;
  m_nextAttemptTime : option Z
}.

(** [public getMetrics()]: reads the fields; the clock is not consulted
    and nothing is assigned, so the breaker itself is not returned. *)
Definition getMetrics (b : t) : Metrics :=
  {| m_state := state b;
     m_failureCount := failureCount b;
     m_successCount := successCount b;
     m_lastFailureTime := lastFailureTime b;
     m_lastStateChange := lastStateChange b;
     m_nextAttemptTime := nextAttemptTime b |}.

(** *** Call sequences *)

(** Consecutive [recordFailure] calls, each with its clock reading and
    its error text, applied left to right. *)
Definition recordFailures (calls : list (Z * string)) (b : t) : t :=
  foldl (fun b c => recordFailure c.1 c.2 b) b calls.

(** Consecutive [canExecute] calls: the answers in order and the breaker
    after the last one. *)
Fixpoint canExecutes (times : list Z) (b : t) : list bool * t :=
  match times with
  | [] => ([], b)
  | now :: rest =>
      let '(r, b) := canExecute now b in
      let '(rs, b) := canExecutes rest b in
      (r :: rs, b)
  end.

(** One public call on a breaker. *)
Inductive call :=
| CallGetState
| CallCanExecute
| CallRecordSuccess
| CallRecordFailure (error : string)
| CallReset
| CallGetMetrics.

Definition step (b : t) (c : Z * call) : t :=
  let '(now, op) := c in
  match op with
  | CallGetState => (getState now b).2
  | CallCanExecute => (canExecute now b).2
  | CallRecordSuccess => recordSuccess now b
  | CallRecordFailure e => recordFailure now e b
  | CallReset => reset now b
  | CallGetMetrics => let _ := getMetrics b in b
  end.

Definition run (calls : list (Z * call)) (b : t) : t := foldl step b calls.

(** [nextAttemptTime] is set exactly while the breaker is [OPEN]. *)
Definition attempt_iff_open (b : t) : Prop :=
  is_Some (nextAttemptTime b) <-> state b = OPEN.

(** Consecutive [recordSuccess] calls, one clock reading each. *)
Definition recordSuccesses (times : list Z) (b : t) : t :=
  foldl (fun b now => recordSuccess now b) b times.

(** Both streak counters are natural numbers, one of them is zero, and a
    [CLOSED] breaker with a positive threshold is below it. *)
Definition counters_ok (b : t) : Prop :=
  0 <= failureCount b /\ 0 <= successCount b /\
  (failureCount b = 0 \/ successCount b = 0) /\
  (state b = CLOSED -> 1 <= failureThreshold (config b) ->
   failureCount b < failureThreshold (config b)).

End CircuitBreaker.

(* ===================================================================== *)
(** ** config/schema.ts: a configured source *)

Inductive SourceType := TyAuto | TyRss | TyAtom | TyJson | TyHtml.

Module SourceConfig.
Record t := mk {
  id : string;
  name : string;
  url : string;
  type : SourceType;
  selector : option string;
  category : option string;
  priority : Z;
  enabled : bool
}.
End SourceConfig.

(* ===================================================================== *)
(** ** services/sentinel/index.ts *)

(** The per-source record kept in [sourceStats]. *)
Module SourceStats.
Record t := mk {
  totalRequests : Z;
  totalFailures : Z;
  lastSuccess : option Z;
  lastFailure : option Z;
  lastError : option string;
  responseTimes : list Z
}.

Definition zero : t := mk 0 0 None None None [].
End SourceStats.

(** The record computed by [getSourceHealth].  [uptime] and
    [responseTimeMs] are quotients; they are kept exact, as rationals. *)
Module SourceHealth.
Record t := mk {
  sourceId : string;
  sourceName : string;
  status : HealthStatus;
  circuitState : CircuitState;
  consecutiveFailures : Z;
  consecutiveSuccesses : Z;
  lastSuccess : option Z;
  lastFailure : option Z;
  lastError : option string;
  totalRequests : Z;
  totalFailures : Z;
  uptime : Q;
  responseTimeMs : option Q
}.
End SourceHealth.

(** The object returned by [getHealthSummary]. *)
Module HealthSummary.
Record entry := mkEntry {
  id : string;
  name : string;
  status : HealthStatus;
  message : string
}.

Record t := mk {
  totalSources : nat;
  healthySources : nat;
  degradedSources : nat;
  unhealthySources : nat;
  overallStatus : HealthStatus;
  sources : list entry
}.
End HealthSummary.

(** What [this.emit(name, payload)] hands to the listeners. *)
Inductive SentinelEvent :=
| source_healthy (sourceId : string)
| source_degraded (sourceId : string) (failures : Z)
| source_unhealthy (sourceId error : string)
| circuit_opened (sourceId reason : string)
| circuit_closed (sourceId : string).

Module SentinelService.

(** The three maps and the configuration of the class; [emitted] is the
    sequence of notifications sent so far, oldest first. *)
Record t := mk {
  circuitBreakers : gmap string CircuitBreaker.t;
  sourceStats : gmap string SourceStats.t;
  sourceConfigs : gmap string SourceConfig.t;
  config : CircuitBreakerConfig;
  emitted : list SentinelEvent
}.

Definition new (cfg : CircuitBreakerConfig) : t :=
  {| circuitBreakers := ∅; sourceStats := ∅; sourceConfigs := ∅;
     config := cfg; emitted := [] |}.

Definition emit (e : SentinelEvent) (s : t) : t :=
  mk (circuitBreakers s) (sourceStats s) (sourceConfigs s) (config s)
     (emitted s ++ [e]).

Definition set_breaker (sid : string) (b : CircuitBreaker.t) (s : t) : t :=
  mk (<[sid := b]> (circuitBreakers s)) (sourceStats s) (sourceConfigs s)
     (config s) (emitted s).

Definition set_stats (sid : string) (st : SourceStats.t) (s : t) : t :=
  mk (circuitBreakers s) (<[sid := st]> (sourceStats s)) (sourceConfigs s)
     (config s) (emitted s).

(** [registerSource(source)]; the new breaker reads the clock once. *)
Definition registerSource (now : Z) (source : SourceConfig.t) (s : t) : t :=
  let sid := SourceConfig.id source in
  match circuitBreakers s !! sid with
  | Some _ => s
  | None =>
      mk (<[sid := CircuitBreaker.new sid (config s) now]> (circuitBreakers s))
         (<[sid := SourceStats.zero]> (sourceStats s))
         (<[sid := source]> (sourceConfigs s))
         (config s) (emitted s)
  end.

(** [unregisterSource(sourceId)] *)
Definition unregisterSource (sid : string) (s : t) : t :=
  mk (delete sid (circuitBreakers s)) (delete sid (sourceStats s))
     (delete sid (sourceConfigs s)) (config s) (emitted s).

(** [canRequest(sourceId)] *)
Definition canRequest (now : Z) (sid : string) (s : t) : bool * t :=
  match circuitBreakers s !! sid with
  | None => (false, s)
  | Some breaker =>
      let '(r, breaker) := CircuitBreaker.canExecute now breaker in
      (r, set_breaker sid breaker s)
  end.

(** [stats.responseTimes.push(x)] followed by the bounded [shift()]. *)
Definition pushResponseTime (x : Z) (rts : list Z) : list Z :=
  let rts := rts ++ [x] in
  if bool_decide (10 < Z.of_nat (length rts)) then tail rts else rts.

(** [recordSuccess(sourceId, responseTimeMs?)] *)
Definition recordSuccess (now : Z) (sid : string) (responseTimeMs : option Z)
    (s : t) : t :=
  match circuitBreakers s !! sid, sourceStats s !! sid with
  | Some breaker, Some stats =>
      let breaker := CircuitBreaker.recordSuccess now breaker in
      let rts :=
        match responseTimeMs with
        | Some x => pushResponseTime x (SourceStats.responseTimes stats)
        | None => SourceStats.responseTimes stats
        end in
      let stats :=
        SourceStats.mk (SourceStats.totalRequests stats + 1)
          (SourceStats.totalFailures stats) (Some now)
          (SourceStats.lastFailure stats) (SourceStats.lastError stats) rts in
      emit (source_healthy sid) (set_stats sid stats (set_breaker sid breaker s))
  | _, _ => s
  end.

(** [recordFailure(sourceId, error)] *)
Definition recordFailure (now : Z) (sid : string) (error : string) (s : t) : t :=
  match circuitBreakers s !! sid, sourceStats s !! sid with
  | Some breaker, Some stats =>
      let breaker := CircuitBreaker.recordFailure now error breaker in
      let stats :=
        SourceStats.mk (SourceStats.totalRequests stats + 1)
          (SourceStats.totalFailures stats + 1)
          (SourceStats.lastSuccess stats) (Some now) (Some error)
          (SourceStats.responseTimes stats) in
      let s := set_stats sid stats (set_breaker sid breaker s) in
      let metrics := CircuitBreaker.getMetrics breaker in
      if bool_decide (CircuitBreaker.m_state metrics = OPEN)
      then emit (circuit_opened sid error) (emit (source_unhealthy sid error) s)
      else emit (source_degraded sid (CircuitBreaker.m_failureCount metrics)) s
  | _, _ => s
  end.

(** [private circuitStateToHealthStatus(state)] *)
Definition circuitStateToHealthStatus (st : CircuitState) : HealthStatus :=
  match st with
  | CLOSED => HEALTHY
  | HALF_OPEN => DEGRADED
  | OPEN => UNHEALTHY
  end.

(** [responseTimes.reduce((a, b) => a + b, 0)] *)
Definition sumZ (l : list Z) : Z := foldl Z.add 0 l.

(** The mean computed in [getSourceHealth]. *)
Definition avgResponseTime (rts : list Z) : option Q :=
  if bool_decide (0 < Z.of_nat (length rts))
  then Some (inject_Z (sumZ rts) / inject_Z (Z.of_nat (length rts)))%Q
  else None.

(** [getSourceHealth(sourceId)] *)
Definition getSourceHealth (sid : string) (s : t) : option SourceHealth.t :=
  match circuitBreakers s !! sid, sourceStats s !! sid, sourceConfigs s !! sid with
  | Some breaker, Some stats, Some cfg =>
      let metrics := CircuitBreaker.getMetrics breaker in
      let avg := avgResponseTime (SourceStats.responseTimes stats) in
      let uptime :=
        if bool_decide (0 < SourceStats.totalRequests stats)
        then (inject_Z (SourceStats.totalRequests stats
                        - SourceStats.totalFailures stats)
              / inject_Z (SourceStats.totalRequests stats) * 100)%Q
        else 100%Q in
      Some {|
        SourceHealth.sourceId := sid;
        SourceHealth.sourceName := SourceConfig.name cfg;
        SourceHealth.status :=
          circuitStateToHealthStatus (CircuitBreaker.m_state metrics);
        SourceHealth.circuitState := CircuitBreaker.m_state metrics;
        SourceHealth.consecutiveFailures := CircuitBreaker.m_failureCount metrics;
        SourceHealth.consecutiveSuccesses := CircuitBreaker.m_successCount metrics;
        SourceHealth.lastSuccess := SourceStats.lastSuccess stats;
        SourceHealth.lastFailure := SourceStats.lastFailure stats;
        SourceHealth.lastError := SourceStats.lastError stats;
        SourceHealth.totalRequests := SourceStats.totalRequests stats;
        SourceHealth.totalFailures := SourceStats.totalFailures stats;
        SourceHealth.uptime := uptime;
        SourceHealth.responseTimeMs := avg
      |}
  | _, _, _ => None
  end.

(** [resetSource(sourceId)] *)
Definition resetSource (now : Z) (sid : string) (s : t) : bool * t :=
  match circuitBreakers s !! sid with
  | None => (false, s)
  | Some breaker =>
      (true, emit (circuit_closed sid)
               (set_breaker sid (CircuitBreaker.reset now breaker) s))
  end.

(** *** Call sequences *)

(** One [recordSuccess] call: clock reading, source id, latency. *)
Definition success_call : Type := Z * string * option Z.

Definition recordSuccesses (calls : list success_call) (s : t) : t :=
  foldl (fun s c => recordSuccess c.1.1 c.1.2 c.2 s) s calls.

(** The latencies that a sequence of calls supplies for one source. *)
Definition samples (sid : string) (calls : list success_call) : list Z :=
  omap (fun c : success_call =>
          if bool_decide (c.1.2 = sid) then c.2 else None) calls.

(** The last [n] elements of a list. *)
Definition lastN {A} (n : nat) (l : list A) : list A :=
  drop (length l - n) l.

(** One public call on the service. *)
Inductive call :=
| CallRegisterSource (source : SourceConfig.t)
| CallUnregisterSource (sid : string)
| CallCanRequest (sid : string)
| CallRecordSuccess (sid : string) (responseTimeMs : option Z)
| CallRecordFailure (sid : string) (error : string)
| CallGetSourceHealth (sid : string)
| CallResetSource (sid : string).

Definition step (s : t) (c : Z * call) : t :=
  let '(now, op) := c in
  match op with
  | CallRegisterSource source => registerSource now source s
  | CallUnregisterSource sid => unregisterSource sid s
  | CallCanRequest sid => (canRequest now sid s).2
  | CallRecordSuccess sid lat => recordSuccess now sid lat s
  | CallRecordFailure sid e => recordFailure now sid e s
  | CallGetSourceHealth sid => let _ := getSourceHealth sid s in s
  | CallResetSource sid => (resetSource now sid s).2
  end.

Definition run (calls : list (Z * call)) (s : t) : t := foldl step s calls.

(** The three maps have the same keys and no sample list is longer
    than ten. *)
Definition well_formed (s : t) : Prop :=
  forall sid : string,
    (circuitBreakers s !! sid = None <-> sourceStats s !! sid = None) /\
    (circuitBreakers s !! sid = None <-> sourceConfigs s !! sid = None) /\
    (forall st, sourceStats s !! sid = Some st ->
                (length (SourceStats.responseTimes st) <= 10)%nat).

(** Consecutive [recordFailure] calls for one source, each with its clock
    reading and its error text. *)
Definition recordFailures (sid : string) (calls : list (Z * string)) (s : t) : t :=
  foldl (fun s c => recordFailure c.1 sid c.2 s) s calls.

(** The notifications sent by consecutive failures of one source whose
    breaker had [count] failures before them and threshold [threshold]:
    a [source:degraded] with the new count below the threshold, the pair
    [source:unhealthy], [circuit:opened] from it onwards. *)
Fixpoint failureLog (sid : string) (threshold count : Z)
    (calls : list (Z * string)) : list SentinelEvent :=
  match calls with
  | [] => []
  | (_, error) :: rest =>
      (if bool_decide (threshold <= count + 1)
       then [source_unhealthy sid error; circuit_opened sid error]
       else [source_degraded sid (count + 1)])
      ++ failureLog sid threshold (count + 1) rest
  end.

(** The request counters of every source are in order. *)
Definition counts_ok (s : t) : Prop :=
  forall sid st, sourceStats s !! sid = Some st ->
    0 <= SourceStats.totalFailures st <= SourceStats.totalRequests st.

Section WithToFixed.

(** [x.toFixed(1)], the runtime's decimal formatting. *)
Variable toFixed1 : Q -> string.

(** [private getStatusMessage(health)] *)
Definition getStatusMessage (health : SourceHealth.t) : string :=
  match SourceHealth.status health with
  | HEALTHY =>
      "Operating normally (" +:+ toFixed1 (SourceHealth.uptime health)
      +:+ "% uptime)"
  | DEGRADED =>
      "Experiencing issues ("
      +:+ pretty (SourceHealth.consecutiveFailures health)
      +:+ " recent failures)"
  | UNHEALTHY =>
      "Currently unavailable: "
      +:+ match SourceHealth.lastError health with
          | Some e => if bool_decide (e = "") then "Unknown error" else e
          | None => "Unknown error"
          end
  end.

(** [allHealth.filter(h => h.status === status)] *)
Definition withStatus (status : HealthStatus) (allHealth : list SourceHealth.t)
    : list SourceHealth.t :=
  List.filter (fun h => bool_decide (SourceHealth.status h = status)) allHealth.

(** [getHealthSummary()], from the list [allHealth] that
    [getAllSourceHealth()] returned. *)
Definition summarize (allHealth : list SourceHealth.t) : HealthSummary.t :=
  let healthy := withStatus HEALTHY allHealth in
  let degraded := withStatus DEGRADED allHealth in
  let unhealthy := withStatus UNHEALTHY allHealth in
  let overallStatus :=
    if bool_decide (0 < length unhealthy)%nat
    then if bool_decide (length unhealthy = length allHealth)
         then UNHEALTHY else DEGRADED
    else if bool_decide (0 < length degraded)%nat then DEGRADED
    else HEALTHY in
  {| HealthSummary.totalSources := length allHealth;
     HealthSummary.healthySources := length healthy;
     HealthSummary.degradedSources := length degraded;
     HealthSummary.unhealthySources := length unhealthy;
     HealthSummary.overallStatus := overallStatus;
     HealthSummary.sources :=
       map (fun h =>
              {| HealthSummary.id := SourceHealth.sourceId h;
                 HealthSummary.name := SourceHealth.sourceName h;
                 HealthSummary.status := SourceHealth.status h;
                 HealthSummary.message := getStatusMessage h |}) allHealth |}.

End WithToFixed.

End SentinelService.

(* ===================================================================== *)
(** ** JavaScript values and strings

    A string of the program is a [string] here, one character per UTF-16
    code unit; the code units are those below 256 (Latin-1).  A number is
    an integer of magnitude below 10^21, the range that [String] prints
    in plain decimal.  An object is the list of its own properties,
    looked up by the first entry for a key. *)

Inductive jsval :=
| JUndefined
| JNull
| JBool (b : bool)
| JNum (n : Z)
| JStr (s : string)
| JArr (elems : list jsval)
| JObj (props : list (string * jsval)).

Module JS.

(** [!value] is [negb (truthy value)]. *)
Definition truthy (v : jsval) : bool :=
  match v with
  | JUndefined | JNull => false
  | JBool b => b
  | JNum n => negb (bool_decide (n = 0))
  | JStr s => negb (bool_decide (s = ""))
  | JArr _ | JObj _ => true
  end.

(** [obj[key]] for a key that is the name of no built-in property. *)
Fixpoint assoc (key : string) (props : list (string * jsval)) : option jsval :=
  match props with
  | [] => None
  | (k, v) :: rest => if bool_decide (k = key) then Some v else assoc key rest
  end.

Definition get (v : jsval) (key : string) : jsval :=
  match v with
  | JObj props => default JUndefined (assoc key props)
  | _ => JUndefined
  end.

(** [key in obj], for [obj] an object or an array. *)
Definition has (v : jsval) (key : string) : bool :=
  match v with
  | JObj props => bool_decide (is_Some (assoc key props))
  | _ => false
  end.

(** [typeof v === 'object'] (which [null] and arrays satisfy). *)
Definition is_object (v : jsval) : bool :=
  match v with
  | JNull | JArr _ | JObj _ => true
  | _ => false
  end.

(** [parts.join(',')] for parts that are already strings. *)
Fixpoint join (parts : list string) : string :=
  match parts with
  | [] => ""
  | [p] => p
  | p :: rest => p +:+ "," +:+ join rest
  end.

(** [String(v)] *)
Fixpoint toString (v : jsval) : string :=
  match v with
  | JUndefined => "undefined"
  | JNull => "null"
  | JBool true => "true"
  | JBool false => "false"
  | JNum n => pretty n
  | JStr s => s
  | JArr elems =>
      join (map (fun e => match e with
                          | JUndefined | JNull => ""
                          | _ => toString e
                          end) elems)
  | JObj _ => "[object Object]"
  end.

(** A value of type [string | undefined] is an [option string];
    [a || b] keeps [a] unless it is undefined or empty. *)
Definition truthyS (a : option string) : bool :=
  match a with
  | Some s => negb (bool_decide (s = ""))
  | None => false
  end.

Definition or_opt (a b : option string) : option string :=
  if truthyS a then a else b.

Definition or_str (a : option string) (b : string) : string :=
  match a with
  | Some s => if truthyS a then s else b
  | None => b
  end.

(** [ToInt32]: the signed 32-bit value of an integer. *)
Definition toInt32 (z : Z) : Z :=
  (z + 2147483648) mod 4294967296 - 2147483648.

(** [str.charCodeAt(i)] *)
Definition charCode (c : ascii) : Z := Z.of_N (N_of_ascii c).

(** The body of the loop shared, word for word, by [hashString] of the
    RSS and HTML adapters and by [hashObject] of the JSON adapter:
    [hash = ((hash << 5) - hash) + char; hash = hash & hash]. *)
Definition hashStep (hash : Z) (char : ascii) : Z :=
  let hash := toInt32 (Z.shiftl (toInt32 hash) 5) - hash + charCode char in
  toInt32 (Z.land (toInt32 hash) (toInt32 hash)).

(** [for (let i = 0; i < str.length; i++)] over [str.charCodeAt(i)]. *)
Definition hashLoop (hash : Z) (str : string) : Z :=
  foldl hashStep hash (String.list_ascii_of_string str).

(** The template [`${prefix}${Math.abs(hash)}`]. *)
Definition hashWith (prefix : string) (str : string) : string :=
  prefix +:+ pretty (Z.abs (hashLoop 0 str)).

(** Code units removed by [trim()]. *)
Definition is_space (c : ascii) : bool :=
  bool_decide (charCode c ∈ [9; 10; 11; 12; 13; 32; 160]).

Fixpoint trimStart (s : string) : string :=
  match s with
  | EmptyString => EmptyString
  | String c rest => if is_space c then trimStart rest else s
  end.

(** [trimEnd], right to left: a character stays when something
    non-blank follows it or it is itself non-blank. *)
Fixpoint trimEnd (s : string) : string :=
  match s with
  | EmptyString => EmptyString
  | String c rest =>
      match trimEnd rest with
      | EmptyString => if is_space c then EmptyString else String c EmptyString
      | kept => String c kept
      end
  end.

Definition trim (s : string) : string := trimEnd (trimStart s).

(** [toLowerCase()] on Latin-1: A-Z and the accented capitals
    (U+00C0-U+00DE without the multiplication sign) move up by 32. *)
Definition lowerChar (c : ascii) : ascii :=
  let n := charCode c in
  if bool_decide (65 <= n <= 90)
     || (bool_decide (192 <= n <= 222) && negb (bool_decide (n = 215)))
  then ascii_of_N (Z.to_N (n + 32))
  else c.

Fixpoint toLowerCase (s : string) : string :=
  match s with
  | EmptyString => EmptyString
  | String c rest => String (lowerChar c) (toLowerCase rest)
  end.

(** [s.startsWith(p)] *)
Fixpoint startsWith (p s : string) : bool :=
  match p, s with
  | EmptyString, _ => true
  | String a p', String b s' => bool_decide (a = b) && startsWith p' s'
  | String _ _, EmptyString => false
  end.

(** [s.includes(sub)] *)
Fixpoint includes (sub s : string) : bool :=
  startsWith sub s ||
  match s with
  | EmptyString => false
  | String _ rest => includes sub rest
  end.

(** The polynomial with multiplier 31 over the code units, not reduced. *)
Definition horner (acc : Z) (str : string) : Z :=
  foldl (fun acc c => 31 * acc + charCode c) acc
    (String.list_ascii_of_string str).

End JS.

(* ===================================================================== *)
(** ** services/parser/adapters: how an item gets its identity

    Each adapter builds a [NewsItem] per raw item or drops the item by
    returning [null].  The fields [id], [title] and [link] are computed
    first and from the raw item alone; they are what is modelled here.
    The remaining fields never feed back into these three. *)

Module ItemIdentity.
Record t := mk {
  id : string;
  title : string;
  link : string
}.
End ItemIdentity.

(** The formats an adapter can declare (services/parser/types.ts). *)
Module ContentType.
Inductive t := RSS | ATOM | JSON | HTML | UNKNOWN.

#[global] Instance eq_dec : EqDecision t.
Proof. solve_decision. Defined.
End ContentType.

(** What an adapter returns (services/parser/types.ts), with the items
    reduced to their identity and the feed metadata to its three texts. *)
Module ParseResult.
Record metadata := mkMetadata {
  title : option string;
  description : option string;
  link : option string
}.

Record t := mk {
  success : bool;
  items : list ItemIdentity.t;
  contentType : ContentType.t;
  error : option string;
  meta : option metadata
}.
End ParseResult.

(** *** adapters/rss.ts *)
Module RSSAdapter.

(** [private getString(value)] *)
Definition getString (value : jsval) : option string :=
  if negb (JS.truthy value) then None
  else match value with
       | JStr s => Some s
       | _ =>
           if JS.is_object value && JS.has value "#text"
           then Some (JS.toString (JS.get value "#text"))
           else Some (JS.toString value)
       end.

(** [private ensureArray(value)] *)
Definition ensureArray (value : jsval) : list jsval :=
  if negb (JS.truthy value) then []
  else match value with
       | JArr elems => elems
       | _ => [value]
       end.

(** [private hashString(str)] *)
Definition hashString (str : string) : string := JS.hashWith "hash-" str.

(** [private parseRSSItem(item, sourceId, sourceName)], with [item] of
    its declared type [Record<string, unknown>]. *)
Definition parseRSSItem (item : list (string * jsval)) : option ItemIdentity.t :=
  let item := JObj item in
  let link := getString (JS.get item "link") in
  let title := getString (JS.get item "title") in
  if negb (JS.truthyS link) && negb (JS.truthyS title) then None
  else
    let id :=
      JS.or_str (JS.or_opt (getString (JS.get item "guid")) link)
                (hashString (JS.or_str title "")) in
    Some {| ItemIdentity.id := id;
            ItemIdentity.title := JS.or_str title "Untitled";
            ItemIdentity.link := JS.or_str link "" |}.

(** The test of [linkArray.find] in [getAtomLink]:
    [l['@_rel'] === 'alternate' || !l['@_rel']]. *)
Definition isAlternate (l : jsval) : bool :=
  let rel := JS.get l "@_rel" in
  match rel with
  | JStr s => bool_decide (s = "alternate")
  | _ => false
  end
  || negb (JS.truthy rel).

(** [private getAtomLink(links)], for link elements that are, as
    declared, objects or other values with readable properties. *)
Definition getAtomLink (links : jsval) : option string :=
  let linkArray := ensureArray links in
  let alternate := default JUndefined (List.find isAlternate linkArray) in
  let link :=
    if JS.truthy alternate then alternate
    else default JUndefined (head linkArray) in
  if JS.truthy link then getString (JS.get link "@_href") else None.

(** [private parseAtomEntry(entry, sourceId, sourceName)] *)
Definition parseAtomEntry (entry : list (string * jsval)) : option ItemIdentity.t :=
  let entry := JObj entry in
  let link := getAtomLink (JS.get entry "link") in
  let title := getString (JS.get entry "title") in
  if negb (JS.truthyS link) && negb (JS.truthyS title) then None
  else
    let id :=
      JS.or_str (JS.or_opt (getString (JS.get entry "id")) link)
                (hashString (JS.or_str title "")) in
    Some {| ItemIdentity.id := id;
            ItemIdentity.title := JS.or_str title "Untitled";
            ItemIdentity.link := JS.or_str link "" |}.

(** [readonly supportedTypes] *)
Definition supportedTypes : list ContentType.t :=
  [ContentType.RSS; ContentType.ATOM].

(** [canParse(content, contentType?)] *)
Definition canParse (content : string) (contentType : option string) : bool :=
  (if JS.truthyS contentType
   then
     let lower := JS.toLowerCase (default "" contentType) in
     JS.includes "rss" lower || JS.includes "atom" lower
     || JS.includes "xml" lower
   else false)
  ||
  let trimmed := JS.trim content in
  JS.startsWith "<?xml" trimmed || JS.includes "<rss" trimmed
  || JS.includes "<feed" trimmed || JS.includes "<channel>" trimmed.

End RSSAdapter.

(** *** adapters/json.ts *)
Module JSONAdapter.
(** [readonly supportedTypes] *)
Definition supportedTypes : list ContentType.t := [ContentType.JSON].

(** [canParse(content, contentType?)] *)
Definition canParse (content : string) (contentType : option string) : bool :=
  match contentType with
  | Some ct => JS.includes "json" (JS.toLowerCase ct)
  | None => false
  end
  ||
  let trimmed := JS.trim content in
  JS.startsWith "[" trimmed || JS.startsWith "{" trimmed.

Section WithStringify.

(** [JSON.stringify], the runtime's serialiser. *)
Variable stringify : jsval -> string.

(** [private getString(obj, keys)] *)
Fixpoint getString (obj : jsval) (keys : list string) : option string :=
  match keys with
  | [] => None
  | key :: rest =>
      match JS.get obj key with
      | JUndefined | JNull => getString obj rest
      | JStr s => Some s
      | value =>
          if JS.is_object value && JS.has value "url"
          then Some (JS.toString (JS.get value "url"))
          else Some (JS.toString value)
      end
  end.

(** [private hashObject(obj)] *)
Definition hashObject (obj : jsval) : string :=
  JS.hashWith "json-" (stringify obj).

(** [private mapToNewsItem(item, sourceId, sourceName, _options)] *)
Definition mapToNewsItem (item : jsval) : option ItemIdentity.t :=
  if negb (JS.truthy item) || negb (JS.is_object item) then None
  else
    let obj := item in
    let link := getString obj ["link"; "url"; "href"; "permalink"] in
    let title := getString obj ["title"; "name"; "headline"] in
    if negb (JS.truthyS link) && negb (JS.truthyS title) then None
    else
      let id :=
        JS.or_str (JS.or_opt (getString obj ["id"; "guid"; "uuid"]) link)
                  (hashObject obj) in
      Some {| ItemIdentity.id := id;
              ItemIdentity.title := JS.or_str title "Untitled";
              ItemIdentity.link := JS.or_str link "" |}.

(** The keys under which [parse] looks for the array of items. *)
Definition arrayKeys : list string :=
  ["items"; "data"; "entries"; "articles"; "posts"; "news"; "results"].

(** The loop [for (const key of arrayKeys)] up to its [break]: the first
    key whose value is an array, with that array. *)
Fixpoint findArray (parsed : jsval) (keys : list string)
    : option (string * list jsval) :=
  match keys with
  | [] => None
  | key :: rest =>
      match JS.get parsed key with
      | JArr elems => Some (key, elems)
      | _ => findArray parsed rest
      end
  end.

(** [metadata = { ...parsed }; delete metadata[key]] *)
Definition withoutKey (key : string) (props : list (string * jsval))
    : list (string * jsval) :=
  List.filter (fun kv => negb (bool_decide (kv.1 = key))) props.

(** The raw items and the metadata object that [parse] works with, from
    the value returned by [JSON.parse]. *)
Definition rawItems (parsed : jsval) : list jsval * jsval :=
  match parsed with
  | JArr elems => (elems, JObj [])
  | JObj props =>
      let '(items, metadata) :=
        match findArray parsed arrayKeys with
        | Some (key, elems) => (elems, JObj (withoutKey key props))
        | None => ([], JObj [])
        end in
      (if bool_decide (length items = 0%nat) then [parsed] else items, metadata)
  | _ => ([], JObj [])
  end.

(** [parse(content, sourceId, sourceName, options)] once [JSON.parse] has
    returned [parsed]. *)
Definition parseValue (parsed : jsval) : ParseResult.t :=
  let '(items, metadata) := rawItems parsed in
  {| ParseResult.success := true;
     ParseResult.items := omap mapToNewsItem items;
     ParseResult.contentType := ContentType.JSON;
     ParseResult.error := None;
     ParseResult.meta :=
       Some {| ParseResult.title := getString metadata ["title"; "name"];
               ParseResult.description :=
                 getString metadata ["description"; "subtitle"];
               ParseResult.link :=
                 getString metadata ["link"; "url"; "homepage"] |} |}.

End WithStringify.
End JSONAdapter.

(** *** adapters/html.ts *)
Module HTMLAdapter.

(** [readonly supportedTypes] *)
Definition supportedTypes : list ContentType.t := [ContentType.HTML].

(** [canParse(content, contentType?)] *)
Definition canParse (content : string) (contentType : option string) : bool :=
  match contentType with
  | Some ct => JS.includes "html" (JS.toLowerCase ct)
  | None => false
  end
  ||
  let trimmed := JS.toLowerCase (JS.trim content) in
  JS.startsWith "<!doctype" trimmed || JS.startsWith "<html" trimmed
  || JS.includes "<body" trimmed.

(** What [extractItem] reads from the element for the three fields:
    the first [a[href]] descendant, with its [href] attribute and its
    text, and the text of the first heading or title-like descendant. *)
Record Anchor := mkAnchor {
  href : option string;
  anchorText : string
}.

Record Element := mkElement {
  linkEl : option Anchor;
  titleEl : option string
}.

Section WithURL.

(** [new URL(url, base).href]; [None] when the constructor throws. *)
Variable URL_href : string -> string -> option string.

(** [private resolveUrl(url, baseUrl?)] *)
Definition resolveUrl (url : string) (baseUrl : option string) : string :=
  if bool_decide (url = "") then ""
  else if JS.startsWith "http://" url || JS.startsWith "https://" url then url
  else if JS.truthyS baseUrl
  then default url (URL_href url (default "" baseUrl))
  else url.

(** [private hashString(str)] *)
Definition hashString (str : string) : string := JS.hashWith "html-" str.

(** [private extractItem(element, sourceId, sourceName, options)];
    [baseUrl] is [options?.baseUrl]. *)
Definition extractItem (element : Element) (baseUrl : option string)
    : option ItemIdentity.t :=
  let link := JS.or_str (linkEl element ≫= href) "" in
  let title :=
    JS.or_str
      (JS.or_opt (JS.trim <$> titleEl element)
                 (JS.trim <$> (anchorText <$> linkEl element)))
      "" in
  if bool_decide (link = "") && bool_decide (title = "") then None
  else
    let id := hashString (if bool_decide (link = "") then title else link) in
    Some {| ItemIdentity.id := id;
            ItemIdentity.title :=
              if bool_decide (title = "") then "Untitled" else title;
            ItemIdentity.link := resolveUrl link baseUrl |}.

End WithURL.
End HTMLAdapter.

(* ===================================================================== *)
(** ** services/parser/index.ts: detection and dispatch *)

Module UniversalParser.

(** The three adapters of [this.adapters], which the constructor puts in
    this order. *)
Inductive Adapter := TheRSSAdapter | TheJSONAdapter | TheHTMLAdapter.

#[global] Instance Adapter_eq_dec : EqDecision Adapter.
Proof. solve_decision. Defined.

Definition adapters : list Adapter :=
  [TheRSSAdapter; TheJSONAdapter; TheHTMLAdapter].

Definition supportedTypes (a : Adapter) : list ContentType.t :=
  match a with
  | TheRSSAdapter => RSSAdapter.supportedTypes
  | TheJSONAdapter => JSONAdapter.supportedTypes
  | TheHTMLAdapter => HTMLAdapter.supportedTypes
  end.

Definition canParse (a : Adapter) (content : string)
    (contentType : option string) : bool :=
  match a with
  | TheRSSAdapter => RSSAdapter.canParse content contentType
  | TheJSONAdapter => JSONAdapter.canParse content contentType
  | TheHTMLAdapter => HTMLAdapter.canParse content contentType
  end.

(** [supportedTypes.includes(detectedType)] *)
Definition supports (a : Adapter) (detectedType : ContentType.t) : bool :=
  bool_decide (detectedType ∈ supportedTypes a).

(** [public detectContentType(content, contentTypeHeader?)] *)
Definition detectContentType (content : string)
    (contentTypeHeader : option string) : ContentType.t :=
  let hinted :=
    if JS.truthyS contentTypeHeader
    then
      let lower := JS.toLowerCase (default "" contentTypeHeader) in
      if JS.includes "rss" lower || JS.includes "atom" lower
      then Some ContentType.RSS
      else if JS.includes "json" lower then Some ContentType.JSON
      else if JS.includes "html" lower then Some ContentType.HTML
      else if JS.includes "xml" lower
      then Some (if JS.includes "<feed" content
                 then ContentType.ATOM else ContentType.RSS)
      else None
    else None in
  match hinted with
  | Some t => t
  | None =>
      let trimmed := JS.trim content in
      if JS.startsWith "<?xml" trimmed || JS.startsWith "<rss" trimmed
         || JS.startsWith "<feed" trimmed
      then if JS.includes "<feed" trimmed
           then ContentType.ATOM else ContentType.RSS
      else if JS.startsWith "[" trimmed || JS.startsWith "{" trimmed
      then ContentType.JSON
      else if JS.startsWith "<!doctype" (JS.toLowerCase trimmed)
              || JS.startsWith "<html" (JS.toLowerCase trimmed)
      then ContentType.HTML
      else ContentType.UNKNOWN
  end.

(** [private findAdapter(content, detectedType, contentTypeHeader?)] *)
Definition findAdapter (content : string) (detectedType : ContentType.t)
    (contentTypeHeader : option string) : option Adapter :=
  match List.find (fun a => supports a detectedType
                            && canParse a content contentTypeHeader) adapters with
  | Some a => Some a
  | None => List.find (fun a => canParse a content contentTypeHeader) adapters
  end.

(** The content type [parse] works with: sniffed for [type: 'auto'],
    otherwise the declared one. *)
Definition contentTypeFor (source : SourceConfig.t) (content : string)
    (contentTypeHeader : option string) : ContentType.t :=
  match SourceConfig.type source with
  | TyAuto => detectContentType content contentTypeHeader
  | TyRss => ContentType.RSS
  | TyAtom => ContentType.ATOM
  | TyJson => ContentType.JSON
  | TyHtml => ContentType.HTML
  end.

(** The adapter [parse] hands the content to; with [None] it returns the
    failure [No adapter found for content type]. *)
Definition adapterFor (source : SourceConfig.t) (content : string)
    (contentTypeHeader : option string) : option Adapter :=
  findAdapter content (contentTypeFor source content contentTypeHeader)
    contentTypeHeader.

End UniversalParser.

(** *** How the identifiers are described

    [a || b || c] over a native identifier, a link and a fall-back text:
    the first of the three that is a non-empty string; the item is only
    kept when link or title is one.  This is the shape shared by the RSS,
    Atom and JSON identifiers. *)
Definition chained_id (native link title : option string)
    (fallback : string) (item : ItemIdentity.t) : Prop :=
  ItemIdentity.id item <> "" /\
  (JS.truthyS native = true -> Some (ItemIdentity.id item) = native) /\
  (JS.truthyS native = false -> JS.truthyS link = true ->
   Some (ItemIdentity.id item) = link) /\
  (JS.truthyS native = false -> JS.truthyS link = false ->
   JS.truthyS title = true /\ ItemIdentity.id item = fallback).

(* ===================================================================== *)
(** ** mcp/tools.ts: the [fetch-news] tool, after the fetches have settled *)

(** The canonical item (services/parser/types.ts); [publishedAt], when
    present, is a valid date. *)
Module NewsItem.
Record t := mk {
  id : string;
  title : string;
  link : string;
  description : option string;
  content : option string;
  author : option string;
  publishedAt : option Z;
  categories : list string;
  sourceId : string;
  sourceName : string;
  imageUrl : option string
}.
End NewsItem.

Module FetchNews.

(** The predicate of [allItems.filter] for a given [lowerFilter];
    [x?.toLowerCase().includes(f)] is falsy when [x] is undefined. *)
Definition matches (lowerFilter : string) (item : NewsItem.t) : bool :=
  JS.includes lowerFilter (JS.toLowerCase (NewsItem.title item))
  || match NewsItem.description item with
     | Some d => JS.includes lowerFilter (JS.toLowerCase d)
     | None => false
     end
  || match NewsItem.content item with
     | Some c => JS.includes lowerFilter (JS.toLowerCase c)
     | None => false
     end.

(** [a.publishedAt ? new Date(a.publishedAt).getTime() : 0] *)
Definition dateOf (a : NewsItem.t) : Z :=
  match NewsItem.publishedAt a with
  | Some d => d
  | None => 0
  end.

(** The comparator handed to [sort]. *)
Definition compareItems (a b : NewsItem.t) : Z := dateOf b - dateOf a.

(** [Array.prototype.sort(cmp)] is a stable sort: an element goes in
    front of the first one it does not compare greater than. *)
Fixpoint insertSorted {A} (cmp : A -> A -> Z) (x : A) (l : list A) : list A :=
  match l with
  | [] => [x]
  | y :: rest =>
      if bool_decide (cmp x y <= 0) then x :: l
      else y :: insertSorted cmp x rest
  end.

Fixpoint sort {A} (cmp : A -> A -> Z) (l : list A) : list A :=
  match l with
  | [] => []
  | x :: rest => insertSorted cmp x (sort cmp rest)
  end.

(** [arr.slice(0, end)] for an integer [end]. *)
Definition slice0 {A} (l : list A) (end_ : Z) : list A :=
  let len := Z.of_nat (length l) in
  let k := if bool_decide (end_ < 0) then Z.max (len + end_) 0
           else Z.min end_ len in
  take (Z.to_nat k) l.

(** From the aggregated [allItems] to [slicedItems]. *)
Definition fetchNews (filter : option string) (limit : Z)
    (allItems : list NewsItem.t) : list NewsItem.t :=
  let allItems :=
    if JS.truthyS filter
    then
      let lowerFilter := JS.toLowerCase (default "" filter) in
      List.filter (matches lowerFilter) allItems
    else allItems in
  let allItems := sort compareItems allItems in
  slice0 allItems limit.

(** The items kept by an optional filter text. *)
Definition selected (filter : option string) (allItems : list NewsItem.t)
    : list NewsItem.t :=
  match filter with
  | Some f => List.filter (matches (JS.toLowerCase f)) allItems
  | None => allItems
  end.

(** Newest first, for the dates the comparator sees. *)
Definition newer_or_same (a b : NewsItem.t) : Prop := dateOf b <= dateOf a.

(** An undated item is never in front of a dated one. *)
Definition undated_last (l : list NewsItem.t) : Prop :=
  forall (i j : nat) (a b : NewsItem.t),
    l !! i = Some a -> l !! j = Some b -> (i < j)%nat ->
    NewsItem.publishedAt a = None -> NewsItem.publishedAt b = None.

(** *** Which sources the tool fetches *)

(** What the handler has decided when it reaches the fetches: one of its
    two early error answers, or the sources to fetch. *)
Inductive selection :=
| NotFoundOrDisabled (sourceId : string)
| NoHealthySources
| Selected (sources : list SourceConfig.t).

(** [targetSources.filter(s => services.sentinel.canRequest(s.id))]: the
    sources asked in order, each answer possibly moving a breaker. *)
Fixpoint filterCanRequest (now : Z) (sources : list SourceConfig.t)
    (sentinel : SentinelService.t)
    : list SourceConfig.t * SentinelService.t :=
  match sources with
  | [] => ([], sentinel)
  | source :: rest =>
      let '(ok, sentinel) :=
        SentinelService.canRequest now (SourceConfig.id source) sentinel in
      let '(kept, sentinel) := filterCanRequest now rest sentinel in
      (if ok then source :: kept else kept, sentinel)
  end.

(** The handler of [fetch-news] from its start to [healthySources]. *)
Definition selectSources (now : Z) (sources : list SourceConfig.t)
    (sourceId : option string) (sentinel : SentinelService.t)
    : selection * SentinelService.t :=
  let targetSources := List.filter SourceConfig.enabled sources in
  let targetSources :=
    if JS.truthyS sourceId
    then List.filter
           (fun s => bool_decide (SourceConfig.id s = default "" sourceId))
           targetSources
    else targetSources in
  if JS.truthyS sourceId && bool_decide (length targetSources = 0%nat)
  then (NotFoundOrDisabled (default "" sourceId), sentinel)
  else
    let '(healthySources, sentinel) :=
      filterCanRequest now targetSources sentinel in
    if bool_decide (length healthySources = 0%nat)
    then (NoHealthySources, sentinel)
    else (Selected healthySources, sentinel).

End FetchNews.

(* ===================================================================== *)
(** ** config/index.ts: what changed between two configurations *)

Module ConfigLoader.

(** [private getAddedSources(prev, curr)], on the two source lists. *)
Definition getAddedSources (prev curr : list SourceConfig.t) : list string :=
  let prevIds := map SourceConfig.id prev in
  map SourceConfig.id
    (List.filter (fun s => negb (bool_decide (SourceConfig.id s ∈ prevIds))) curr).

(** [private getRemovedSources(prev, curr)] *)
Definition getRemovedSources (prev curr : list SourceConfig.t) : list string :=
  let currIds := map SourceConfig.id curr in
  map SourceConfig.id
    (List.filter (fun s => negb (bool_decide (SourceConfig.id s ∈ currIds))) prev).

End ConfigLoader.

(* ===================================================================== *)
(** ** mcp/server.ts: keeping the registry in step with the configuration *)

Module OmniWireServer.

(** Step 2 of [start()]: every enabled source is registered. *)
Definition registerEnabled (now : Z) (sources : list SourceConfig.t)
    (sentinel : SentinelService.t) : SentinelService.t :=
  foldl (fun s source =>
           if SourceConfig.enabled source
           then SentinelService.registerSource now source s else s)
        sentinel sources.

(** The listener of [config:changed]: the sources of the new
    configuration whose id is among [addedSources] are registered, then
    every id of [removedSources] is unregistered. *)
Definition onConfigChanged (now : Z) (current : list SourceConfig.t)
    (addedSources removedSources : list string)
    (sentinel : SentinelService.t) : SentinelService.t :=
  let sentinel :=
    foldl (fun s source =>
             if bool_decide (SourceConfig.id source ∈ addedSources)
             then SentinelService.registerSource now source s else s)
          sentinel current in
  foldl (fun s sid => SentinelService.unregisterSource sid s)
        sentinel removedSources.

End OmniWireServer.

(* ===================================================================== *)
(** * Properties of the circuit breaker *)

Module BreakerProps.
Import CircuitBreaker.

(** Take the breaker apart so that every field read computes. *)
Ltac breaker_open b :=
  destruct b as [?sid ?cfg ?st ?fc ?sc ?lft ?lsc ?nxt];
  cbn [state failureCount successCount config nextAttemptTime
       lastFailureTime lastStateChange sourceId] in *;
  subst.

Ltac breaker_eval :=
  cbv [canExecute getState recordSuccess recordFailure reset
       transitionTo shouldAttemptRecovery set_state set_failureCount
       set_successCount set_lastFailureTime set_lastStateChange
       set_nextAttemptTime state failureCount successCount config
       nextAttemptTime lastFailureTime lastStateChange sourceId
       fst snd negb andb orb step getMetrics].

Ltac breaker_cases :=
  repeat (case_bool_decide; cbn [andb orb negb fst snd] in *;
          try congruence; try lia).

(** The breaker of the configuration defaults, driven by hand. *)
Example three_failures_open :
  let b := recordFailures [(10, "e"); (20, "e"); (30, "e")]
             (new "feed" (mkConfig 3 60000 2) 0) in
  (state b, failureCount b, nextAttemptTime b) = (OPEN, 3, Some 60030).
Proof. reflexivity. Qed.

Example two_successes_close :
  let b := transitionTo 0 OPEN (new "feed" (mkConfig 3 60000 2) 0) in
  let b := (canExecute 60000 b).2 in
  let b := recordSuccess 60002 (recordSuccess 60001 b) in
  (state b, failureCount b, successCount b, nextAttemptTime b)
  = (CLOSED, 0, 0, None).
Proof. reflexivity. Qed.

(** One [recordFailure] call, field by field. *)
Lemma recordFailure_config now e b :
  config (recordFailure now e b) = config b.
Proof. breaker_open b. breaker_eval. breaker_cases; reflexivity. Qed.

Lemma recordFailure_failureCount now e b :
  failureCount (recordFailure now e b) = failureCount b + 1.
Proof. breaker_open b. breaker_eval. breaker_cases; reflexivity. Qed.

Lemma recordFailure_state now e b :
  state (recordFailure now e b) =
    if bool_decide (state b = HALF_OPEN) then OPEN
    else if bool_decide (failureThreshold (config b) <= failureCount b + 1)
         then OPEN else state b.
Proof. breaker_open b. breaker_eval. breaker_cases; reflexivity. Qed.

Lemma recordFailure_nextAttemptTime now e b :
  nextAttemptTime (recordFailure now e b) =
    if bool_decide (state b = HALF_OPEN)
       || bool_decide (failureThreshold (config b) <= failureCount b + 1)
    then Some (now + recoveryTimeoutMs (config b))
    else nextAttemptTime b.
Proof. breaker_open b. breaker_eval. breaker_cases; reflexivity. Qed.

Lemma recordFailure_lastStateChange now e b :
  state b = HALF_OPEN \/ failureThreshold (config b) <= failureCount b + 1 ->
  lastStateChange (recordFailure now e b) = now.
Proof.
  intros H. breaker_open b. breaker_eval.
  breaker_cases; try reflexivity; destruct H; congruence || lia.
Qed.

Lemma recordFailures_snoc calls c b :
  recordFailures (calls ++ [c]) b = recordFailure c.1 c.2 (recordFailures calls b).
Proof. unfold recordFailures. by rewrite foldl_snoc. Qed.

(** A run of failures from [CLOSED]: the count grows by one per call
    and the state is [OPEN] from the first call that lifts the count to
    the threshold. *)
Lemma recordFailures_from_closed calls b :
  state b = CLOSED ->
  let b' := recordFailures calls b in
  config b' = config b /\
  failureCount b' = failureCount b + Z.of_nat (length calls) /\
  state b' =
    if bool_decide (calls <> [])
       && bool_decide (failureThreshold (config b) <= failureCount b')
    then OPEN else CLOSED.
Proof.
  intros Hc. induction calls as [|c calls IH] using rev_ind; cbn zeta.
  - repeat split; [cbn; lia | exact Hc].
  - cbn zeta in IH. destruct IH as (Hcfg & Hcnt & Hst).
    rewrite recordFailures_snoc, recordFailure_config,
      recordFailure_failureCount, recordFailure_state.
    rewrite length_app, Hcfg, Hcnt, Hst. cbn [length].
    split; [reflexivity|]. split; [lia|].
    assert (calls ++ [c] <> []) by (by destruct calls).
    destruct calls; cbn [length] in *; breaker_cases.
Qed.

(** C1. For every run of consecutive [recordFailure] calls on a breaker
    in [CLOSED], after the first [k] calls the failure count has grown
    by [k]; the breaker is still [CLOSED] as long as the count is below
    [failureThreshold], and it is [OPEN] after the call that lifts the
    count to the threshold and after every later call of the run. *)
Theorem failures_open_exactly_at_threshold
    (b : t) (calls : list (Z * string)) (k : nat) :
  state b = CLOSED ->
  (k <= length calls)%nat ->
  let b' := recordFailures (take k calls) b in
  failureCount b' = failureCount b + Z.of_nat k /\
  (failureCount b' < failureThreshold (config b) -> state b' = CLOSED) /\
  ((1 <= k)%nat -> failureThreshold (config b) <= failureCount b' ->
   state b' = OPEN).
Proof.
  intros Hc Hk.
  destruct (recordFailures_from_closed (take k calls) b Hc) as (_ & Hcnt & Hst).
  cbn zeta. rewrite Hst, Hcnt. rewrite length_take, Nat.min_l by lia.
  split; [reflexivity|]. split.
  - intros Hlt. breaker_cases; rewrite ?andb_false_r; reflexivity.
  - intros Hk1 Hge.
    assert (take k calls <> []).
    { destruct calls, k; cbn in *; try lia; discriminate. }
    breaker_cases.
Qed.

Lemma failures_open_exactly_at_threshold_witness :
  let cfg := mkConfig 3 60000 2 in
  let b := new "feed" cfg 0 in
  let calls := [(10, "e1"); (20, "e2"); (30, "e3"); (40, "e4")] in
  state (recordFailures (take 2 calls) b) = CLOSED /\
  state (recordFailures (take 3 calls) b) = OPEN /\
  state (recordFailures (take 4 calls) b) = OPEN.
Proof.
  cbn zeta.
  pose (cfg := mkConfig 3 60000 2).
  pose (calls := [(10, "e1"); (20, "e2"); (30, "e3"); (40, "e4")] : list (Z * string)).
  split; [|split].
  - apply (failures_open_exactly_at_threshold (new "feed" cfg 0) calls 2);
      [reflexivity | simpl; lia | vm_compute; reflexivity].
  - apply (failures_open_exactly_at_threshold (new "feed" cfg 0) calls 3);
      [reflexivity | simpl; lia | lia | vm_compute; discriminate].
  - apply (failures_open_exactly_at_threshold (new "feed" cfg 0) calls 4);
      [reflexivity | simpl; lia | lia | vm_compute; discriminate].
Defined.

(** A query strictly inside the recovery window changes nothing. *)
Lemma canExecute_before_deadline now b d :
  state b = OPEN -> nextAttemptTime b = Some d -> now < d ->
  canExecute now b = (false, b).
Proof.
  intros Hs Hn Hlt. breaker_open b. breaker_eval.
  breaker_cases; reflexivity.
Qed.

Lemma canExecutes_before_deadline times b d :
  state b = OPEN -> nextAttemptTime b = Some d ->
  Forall (fun now => now < d) times ->
  canExecutes times b = (replicate (length times) false, b).
Proof.
  intros Hs Hn. induction 1 as [|now times Hlt _ IH]; [reflexivity|].
  cbn [canExecutes length replicate].
  rewrite (canExecute_before_deadline now b d), IH by assumption.
  reflexivity.
Qed.

(** A query at or after the deadline moves the breaker to [HALF_OPEN]. *)
Lemma getState_after_deadline now b d :
  state b = OPEN -> nextAttemptTime b = Some d -> d <= now ->
  getState now b = (HALF_OPEN, transitionTo now HALF_OPEN b).
Proof.
  intros Hs Hn Hle. breaker_open b. breaker_eval.
  breaker_cases; reflexivity.
Qed.

Lemma canExecute_after_deadline now b d :
  state b = OPEN -> nextAttemptTime b = Some d -> d <= now ->
  canExecute now b = (true, transitionTo now HALF_OPEN b).
Proof.
  intros Hs Hn Hle. unfold canExecute.
  by rewrite (getState_after_deadline now b d).
Qed.

(** No call other than a query at or after the deadline takes an [OPEN]
    breaker to [HALF_OPEN]. *)
Lemma half_open_only_by_query b d now c :
  state b = OPEN -> nextAttemptTime b = Some d ->
  state (step b (now, c)) = HALF_OPEN ->
  (c = CallGetState \/ c = CallCanExecute) /\ d <= now.
Proof.
  intros Hs Hn. breaker_open b.
  destruct c; breaker_eval; breaker_cases; intros; try discriminate; auto.
Qed.

(** C2. Let a breaker enter [OPEN] at [openedAt].  Queried by
    [canExecute] at any times strictly before
    [openedAt + recoveryTimeoutMs], it answers [false] every time and is
    left as it was.  The first [canExecute] at or after that instant
    answers [true], the first [getState] answers [HALF_OPEN], and either
    leaves the breaker [HALF_OPEN] with [nextAttemptTime] cleared.  Only
    such a query makes the move: any call after which the breaker is
    [HALF_OPEN] is a [getState] or [canExecute] made at or after that
    instant. *)
Theorem open_window_then_half_open
    (b0 : t) (openedAt : Z) (before : list Z) (now : Z) :
  let b := transitionTo openedAt OPEN b0 in
  let deadline := openedAt + recoveryTimeoutMs (config b0) in
  Forall (fun t => t < deadline) before ->
  deadline <= now ->
  (canExecutes before b).1 = replicate (length before) false /\
  (canExecutes before b).2 = b /\
  (canExecute now b).1 = true /\
  state (canExecute now b).2 = HALF_OPEN /\
  nextAttemptTime (canExecute now b).2 = None /\
  (getState now b).1 = HALF_OPEN /\
  state (getState now b).2 = HALF_OPEN /\
  nextAttemptTime (getState now b).2 = None /\
  (forall t c, state (step b (t, c)) = HALF_OPEN ->
     (c = CallGetState \/ c = CallCanExecute) /\ deadline <= t).
Proof.
  intros b deadline Hbefore Hnow.
  assert (Hs : state b = OPEN) by (by breaker_open b0).
  assert (Hn : nextAttemptTime b = Some deadline) by (by breaker_open b0).
  rewrite (canExecutes_before_deadline before b deadline Hs Hn Hbefore).
  rewrite (canExecute_after_deadline now b deadline Hs Hn Hnow).
  rewrite (getState_after_deadline now b deadline Hs Hn Hnow).
  cbn [fst snd].
  repeat match goal with |- _ /\ _ => split end; try reflexivity.
  intros t c H. exact (half_open_only_by_query b deadline t c Hs Hn H).
Qed.

Lemma open_window_then_half_open_witness :
  let b := transitionTo 1000 OPEN (new "feed" (mkConfig 3 60000 2) 0) in
  (canExecutes [1000; 30000; 60999] b).1 = [false; false; false] /\
  (canExecute 61000 b).1 = true /\
  state (canExecute 61000 b).2 = HALF_OPEN.
Proof.
  cbn zeta.
  pose proof (open_window_then_half_open (new "feed" (mkConfig 3 60000 2) 0)
                1000 [1000; 30000; 60999] 61000) as H.
  cbn zeta in H.
  assert (Hb : Forall (fun t : Z => t < 1000 + 60000) [1000; 30000; 60999]).
  { repeat constructor. }
  assert (Hn : 1000 + 60000 <= 61000) by (vm_compute; discriminate).
  destruct (H Hb Hn) as (Ha & _ & Hr & Hst & _).
  split; [exact Ha|]. split; [exact Hr | exact Hst].
Defined.

(** C3. For every breaker in [HALF_OPEN], whatever its success count,
    one [recordFailure] at time [now] leaves it [OPEN] with
    [nextAttemptTime = now + recoveryTimeoutMs]; the failure threshold
    plays no part. *)
Theorem half_open_failure_reopens (b : t) (now : Z) (error : string) :
  state b = HALF_OPEN ->
  let b' := recordFailure now error b in
  state b' = OPEN /\
  nextAttemptTime b' = Some (now + recoveryTimeoutMs (config b)) /\
  lastStateChange b' = now.
Proof.
  intros Hs. cbn zeta.
  rewrite recordFailure_state, recordFailure_nextAttemptTime,
    recordFailure_lastStateChange by (left; exact Hs).
  rewrite bool_decide_eq_true_2 by exact Hs. by cbn.
Qed.

Lemma half_open_failure_reopens_witness :
  let cfg := mkConfig 100 60000 5 in
  let b := (canExecute 70000 (transitionTo 0 OPEN (new "feed" cfg 0))).2 in
  let b := recordSuccess 70002 (recordSuccess 70001 b) in
  state b = HALF_OPEN /\ successCount b = 2 /\
  state (recordFailure 70005 "boom" b) = OPEN /\
  nextAttemptTime (recordFailure 70005 "boom" b) = Some (70005 + 60000).
Proof.
  cbn zeta.
  split; [reflexivity|]. split; [reflexivity|].
  pose proof (half_open_failure_reopens
    (recordSuccess 70002 (recordSuccess 70001
       (canExecute 70000
          (transitionTo 0 OPEN (new "feed" (mkConfig 100 60000 5) 0))).2))
    70005 "boom" eq_refl) as H.
  cbn zeta in H. destruct H as (H1 & H2 & _).
  split; [exact H1 | exact H2].
Defined.

(** C9. A [recordFailure] at time [now] on a breaker that is [OPEN] with
    its failure count at or above the threshold enters [OPEN] again and
    sets [nextAttemptTime] to [now + recoveryTimeoutMs]; when the breaker
    had opened at an earlier instant, the new deadline lies strictly
    after the old one. *)
Theorem open_failure_extends_window (b : t) (now : Z) (error : string) :
  state b = OPEN ->
  failureThreshold (config b) <= failureCount b ->
  let b' := recordFailure now error b in
  state b' = OPEN /\
  nextAttemptTime b' = Some (now + recoveryTimeoutMs (config b)) /\
  lastStateChange b' = now /\
  (forall openedAt,
     nextAttemptTime b = Some (openedAt + recoveryTimeoutMs (config b)) ->
     openedAt < now ->
     exists d d', nextAttemptTime b = Some d /\ nextAttemptTime b' = Some d'
                  /\ d < d').
Proof.
  intros Hs Hge. cbn zeta.
  assert (Hn : nextAttemptTime (recordFailure now error b)
               = Some (now + recoveryTimeoutMs (config b))).
  { rewrite recordFailure_nextAttemptTime.
    rewrite (bool_decide_eq_true_2 (_ <= _)) by lia.
    by rewrite orb_true_r. }
  split.
  { rewrite recordFailure_state, Hs.
    rewrite (bool_decide_eq_true_2 (_ <= _)) by lia.
    by case_bool_decide. }
  split; [exact Hn|]. split.
  { apply recordFailure_lastStateChange. right. lia. }
  intros openedAt Hold Hlt. eexists _, _.
  split; [exact Hold|]. split; [exact Hn|]. lia.
Qed.

Lemma open_failure_extends_window_witness :
  let cfg := mkConfig 3 60000 2 in
  let b := recordFailures [(10, "e"); (20, "e"); (30, "e")] (new "feed" cfg 0) in
  nextAttemptTime b = Some 60030 /\
  nextAttemptTime (recordFailure 500 "e" b) = Some (500 + 60000).
Proof.
  cbn zeta. split; [reflexivity|].
  pose proof (open_failure_extends_window
    (recordFailures [(10, "e"); (20, "e"); (30, "e")]
       (new "feed" (mkConfig 3 60000 2) 0)) 500 "e" eq_refl) as H.
  cbn zeta in H.
  assert (Hge : failureThreshold (mkConfig 3 60000 2) <= 3)
    by (vm_compute; discriminate).
  destruct (H Hge) as (_ & H2 & _). exact H2.
Defined.

(** C5, as stated, fails: a breaker opened by three failures, read by
    [getMetrics] after its recovery deadline, is reported [OPEN], not
    [HALF_OPEN], although [getState] at that instant answers
    [HALF_OPEN]. *)
Lemma getMetrics_after_deadline_not_half_open :
  let b := recordFailures [(10, "e"); (20, "e"); (30, "e")]
             (new "feed" (mkConfig 3 60000 2) 0) in
  let now := 70000 in
  (state b = OPEN /\ nextAttemptTime b = Some 60030 /\ 60030 <= now) /\
  (getState now b).1 = HALF_OPEN /\
  m_state (getMetrics b) <> HALF_OPEN.
Proof.
  cbn zeta. split; [|split].
  - split; [reflexivity|]. split; [reflexivity|]. vm_compute. discriminate.
  - reflexivity.
  - vm_compute. discriminate.
Qed.

(** C5, amended. [getMetrics] copies the stored fields and does nothing
    else: the breaker is left exactly as it was, and for a breaker stored
    as [OPEN] the snapshot says [OPEN] with the stored [nextAttemptTime],
    also at or after that time, when [getState] would answer
    [HALF_OPEN]. *)
Theorem getMetrics_reads_stored_fields (b : t) (d now : Z) :
  state b = OPEN ->
  nextAttemptTime b = Some d ->
  d <= now ->
  step b (now, CallGetMetrics) = b /\
  getMetrics b =
    mkMetrics (state b) (failureCount b) (successCount b)
      (lastFailureTime b) (lastStateChange b) (nextAttemptTime b) /\
  m_state (getMetrics b) = OPEN /\
  m_nextAttemptTime (getMetrics b) = Some d /\
  (getState now b).1 = HALF_OPEN.
Proof.
  intros Hs Hn Hle.
  rewrite (getState_after_deadline now b d Hs Hn Hle).
  unfold getMetrics, step. cbn [m_state m_nextAttemptTime fst].
  by rewrite Hs, Hn.
Qed.

Lemma getMetrics_reads_stored_fields_witness :
  let b := recordFailures [(10, "e"); (20, "e"); (30, "e")]
             (new "feed" (mkConfig 3 60000 2) 0) in
  m_state (getMetrics b) = OPEN /\ (getState 70000 b).1 = HALF_OPEN.
Proof.
  cbn zeta.
  assert (Hle : 60030 <= 70000) by (vm_compute; discriminate).
  destruct (getMetrics_reads_stored_fields
    (recordFailures [(10, "e"); (20, "e"); (30, "e")]
       (new "feed" (mkConfig 3 60000 2) 0)) 60030 70000 eq_refl eq_refl Hle)
    as (_ & _ & Hm & _ & Hg).
  split; [exact Hm | exact Hg].
Defined.

(** Every public call keeps [nextAttemptTime] set exactly in [OPEN]. *)
Lemma transitionTo_attempt_iff_open now s b :
  attempt_iff_open (transitionTo now s b).
Proof.
  breaker_open b. unfold attempt_iff_open. breaker_eval.
  destruct s; breaker_cases; split; intros Hx; try reflexivity;
    try discriminate; try (by eexists); by destruct Hx.
Qed.

Lemma step_attempt_iff_open b c :
  attempt_iff_open b -> attempt_iff_open (step b c).
Proof.
  destruct c as [now op]. unfold attempt_iff_open.
  breaker_open b. intros [Hto Hfrom].
  assert (Hnone : ~ is_Some (@None Z)) by (intros [? ?]; discriminate).
  assert (Hsome : forall z : Z, is_Some (Some z)) by (intros; by eexists).
  destruct st, nxt;
    try (exfalso; first [ by specialize (Hto (Hsome _))
                        | by apply Hnone, Hfrom ]);
    clear Hto Hfrom;
    destruct op; breaker_eval; breaker_cases;
    split; intros Hx;
    first [ reflexivity | discriminate | apply Hsome | by apply Hnone in Hx ].
Qed.

Lemma run_attempt_iff_open calls b :
  attempt_iff_open b -> attempt_iff_open (run calls b).
Proof.
  revert b. induction calls as [|c calls IH]; intros b Hinv; [exact Hinv|].
  cbn [run foldl]. apply IH, step_attempt_iff_open, Hinv.
Qed.

(** C6. A new breaker is [CLOSED] with [nextAttemptTime] null, and after
    each call of any sequence of [getState], [canExecute],
    [recordSuccess], [recordFailure], [reset] and [getMetrics] calls,
    [nextAttemptTime] is non-null if and only if the state is [OPEN]. *)
Theorem nextAttemptTime_set_iff_open
    (sid : string) (cfg : CircuitBreakerConfig) (t0 : Z)
    (calls : list (Z * call)) (k : nat) :
  state (new sid cfg t0) = CLOSED /\
  nextAttemptTime (new sid cfg t0) = None /\
  let b := run (take k calls) (new sid cfg t0) in
  (is_Some (nextAttemptTime b) <-> state b = OPEN).
Proof.
  split; [reflexivity|]. split; [reflexivity|].
  apply run_attempt_iff_open. split; intros H; [by destruct H | discriminate].
Qed.

End BreakerProps.

(* ===================================================================== *)
(** * Properties of the sentinel registry *)

Module SentinelProps.
Import SentinelService.

(** Four failures on a registered source, then a reset. *)
Example four_failures_then_reset :
  let src :=
    SourceConfig.mk "feed" "Feed" "http://example.com/rss" TyRss None None 50 true in
  let s := run [(0, CallRegisterSource src);
                (1, CallRecordFailure "feed" "timeout");
                (2, CallRecordFailure "feed" "timeout");
                (3, CallRecordFailure "feed" "timeout");
                (4, CallRecordFailure "feed" "timeout")]
             (new (mkConfig 3 60000 2)) in
  let view := fun h => (SourceHealth.status h, SourceHealth.circuitState h,
                        SourceHealth.consecutiveFailures h) in
  (view <$> getSourceHealth "feed" s) = Some (UNHEALTHY, OPEN, 4) /\
  (view <$> getSourceHealth "feed" (resetSource 5 "feed" s).2)
  = Some (HEALTHY, CLOSED, 0).
Proof. split; vm_compute; reflexivity. Qed.

(** [lastN] and appending. *)
Lemma lastN_all {A} (n : nat) (l : list A) :
  (length l <= n)%nat -> lastN n l = l.
Proof. intros H. unfold lastN. by replace (length l - n)%nat with 0%nat by lia. Qed.

Lemma lastN_length {A} (n : nat) (l : list A) :
  (length (lastN n l) <= n)%nat.
Proof. unfold lastN. rewrite length_drop. lia. Qed.

Lemma lastN_app_lastN {A} (n : nat) (l r : list A) :
  lastN n (lastN n l ++ r) = lastN n (l ++ r).
Proof.
  unfold lastN. rewrite !length_app, length_drop.
  destruct (decide (length l <= n)%nat) as [Hle|Hgt].
  - replace (length l - n)%nat with 0%nat by lia. cbn [drop].
    by replace (length l - 0)%nat with (length l) by lia.
  - rewrite <- (drop_app_le l r (length l - n)) by lia.
    rewrite drop_drop. f_equal. lia.
Qed.

(** The bounded push keeps the last ten of what it is given. *)
Lemma pushResponseTime_lastN x rts :
  (length rts <= 10)%nat ->
  pushResponseTime x rts = lastN 10 (rts ++ [x]).
Proof.
  intros Hlen. unfold pushResponseTime, lastN.
  rewrite length_app. cbn [length].
  case_bool_decide.
  - replace (length rts + 1 - 10)%nat with 1%nat by lia.
    by destruct (rts ++ [x]).
  - by replace (length rts + 1 - 10)%nat with 0%nat by lia.
Qed.

(** One [recordSuccess] call, seen from a registered source. *)
Lemma recordSuccess_lookup now sid' lat s sid b st :
  circuitBreakers s !! sid = Some b ->
  sourceStats s !! sid = Some st ->
  let s' := recordSuccess now sid' lat s in
  sourceConfigs s' = sourceConfigs s /\
  exists b' st',
    circuitBreakers s' !! sid = Some b' /\
    sourceStats s' !! sid = Some st' /\
    SourceStats.responseTimes st' =
      match (if bool_decide (sid' = sid) then lat else None) with
      | Some x => pushResponseTime x (SourceStats.responseTimes st)
      | None => SourceStats.responseTimes st
      end.
Proof.
  intros Hb Hst. cbn zeta. unfold recordSuccess.
  destruct (circuitBreakers s !! sid') as [b0|] eqn:Eb;
    [destruct (sourceStats s !! sid') as [st0|] eqn:Est|].
  - cbn [emit set_stats set_breaker sourceConfigs circuitBreakers sourceStats].
    split; [reflexivity|].
    case_bool_decide as Heq.
    + subst sid'. rewrite !lookup_insert_eq.
      assert (st0 = st) by congruence. subst st0.
      eexists _, _. split; [reflexivity|]. split; [reflexivity|].
      cbn [SourceStats.responseTimes]. by destruct lat.
    + rewrite !lookup_insert_ne by done. eauto.
  - split; [reflexivity|]. case_bool_decide as Heq; [congruence|]. eauto.
  - split; [reflexivity|]. case_bool_decide as Heq; [congruence|]. eauto.
Qed.

Lemma samples_cons sid now sid' lat calls :
  samples sid ((now, sid', lat) :: calls) =
    match (if bool_decide (sid' = sid) then lat else None) with
    | Some x => x :: samples sid calls
    | None => samples sid calls
    end.
Proof. reflexivity. Qed.

(** A run of [recordSuccess] calls, seen from a registered source. *)
Lemma recordSuccesses_lookup calls s sid b st :
  circuitBreakers s !! sid = Some b ->
  sourceStats s !! sid = Some st ->
  (length (SourceStats.responseTimes st) <= 10)%nat ->
  let s' := recordSuccesses calls s in
  sourceConfigs s' = sourceConfigs s /\
  exists b' st',
    circuitBreakers s' !! sid = Some b' /\
    sourceStats s' !! sid = Some st' /\
    SourceStats.responseTimes st' =
      lastN 10 (SourceStats.responseTimes st ++ samples sid calls).
Proof.
  revert s b st. induction calls as [|[[now sid'] lat] calls IH];
    intros s b st Hb Hst Hlen; cbn zeta.
  - split; [reflexivity|]. exists b, st.
    cbn [samples omap]. rewrite app_nil_r, lastN_all by exact Hlen. auto.
  - cbn [recordSuccesses foldl fst snd].
    destruct (recordSuccess_lookup now sid' lat s sid b st Hb Hst)
      as (Hcfg & b1 & st1 & Hb1 & Hst1 & Hrts).
    assert (Hlen1 : (length (SourceStats.responseTimes st1) <= 10)%nat).
    { rewrite Hrts. destruct (if bool_decide _ then _ else _); [|exact Hlen].
      rewrite pushResponseTime_lastN by exact Hlen. apply lastN_length. }
    destruct (IH _ b1 st1 Hb1 Hst1 Hlen1) as (Hcfg' & b' & st' & Hb' & Hst' & Hr').
    split; [unfold recordSuccesses in Hcfg'; congruence|].
    exists b', st'. split; [exact Hb'|]. split; [exact Hst'|].
    rewrite Hr', Hrts, samples_cons.
    destruct (if bool_decide _ then _ else _) as [x|]; [|reflexivity].
    rewrite pushResponseTime_lastN by exact Hlen.
    rewrite lastN_app_lastN, <- app_assoc. reflexivity.
Qed.

(** Every public call keeps the service well formed. *)
Lemma step_well_formed s c : well_formed s -> well_formed (step s c).
Proof.
  destruct c as [now op]. intros Hwf.
  destruct op as [src|sid|sid|sid lat|sid e|sid|sid]; cbn [step].
  - unfold registerSource.
    destruct (circuitBreakers s !! SourceConfig.id src) eqn:E; [exact Hwf|].
    intros sid0. destruct (Hwf sid0) as (H1 & H2 & H3).
    cbn [circuitBreakers sourceStats sourceConfigs].
    destruct (decide (SourceConfig.id src = sid0)) as [->|Hne].
    + rewrite !lookup_insert_eq. repeat split; try discriminate.
      intros st [= <-]. cbn. lia.
    + rewrite !lookup_insert_ne by done. auto.
  - intros sid0. destruct (Hwf sid0) as (H1 & H2 & H3).
    unfold unregisterSource.
    cbn [circuitBreakers sourceStats sourceConfigs].
    destruct (decide (sid = sid0)) as [->|Hne].
    + rewrite !lookup_delete_eq. repeat split; try discriminate; auto.
    + rewrite !lookup_delete_ne by done. auto.
  - unfold canRequest.
    destruct (circuitBreakers s !! sid) as [b|] eqn:E; [|exact Hwf].
    destruct (CircuitBreaker.canExecute now b) as [r b'].
    intros sid0. destruct (Hwf sid0) as (H1 & H2 & H3).
    cbn [snd set_breaker circuitBreakers sourceStats sourceConfigs].
    destruct (decide (sid = sid0)) as [->|Hne].
    + rewrite lookup_insert_eq. rewrite E in H1, H2.
      repeat split; try discriminate; auto.
      * intros Hn. apply H1 in Hn. discriminate.
      * intros Hn. apply H2 in Hn. discriminate.
    + rewrite lookup_insert_ne by done. auto.
  - unfold recordSuccess.
    destruct (circuitBreakers s !! sid) as [b|] eqn:E; [|exact Hwf].
    destruct (sourceStats s !! sid) as [st|] eqn:Est; [|exact Hwf].
    intros sid0. destruct (Hwf sid0) as (H1 & H2 & H3).
    cbn [emit set_stats set_breaker circuitBreakers sourceStats sourceConfigs].
    destruct (decide (sid = sid0)) as [->|Hne].
    + rewrite !lookup_insert_eq. rewrite E in H1, H2.
      repeat split; try discriminate.
      * intros Hn. apply H2 in Hn. discriminate.
      * intros st' [= <-]. cbn [SourceStats.responseTimes].
        destruct lat; [|by apply H3].
        rewrite pushResponseTime_lastN by (by apply H3). apply lastN_length.
    + rewrite !lookup_insert_ne by done. auto.
  - unfold recordFailure.
    destruct (circuitBreakers s !! sid) as [b|] eqn:E; [|exact Hwf].
    destruct (sourceStats s !! sid) as [st|] eqn:Est; [|exact Hwf].
    intros sid0. destruct (Hwf sid0) as (H1 & H2 & H3).
    destruct (bool_decide _);
      cbn [emit set_stats set_breaker circuitBreakers sourceStats sourceConfigs].
    all: destruct (decide (sid = sid0)) as [->|Hne];
      [ rewrite !lookup_insert_eq; rewrite E in H1, H2;
        repeat split; try discriminate;
        [ intros Hn; apply H2 in Hn; discriminate
        | intros st' [= <-]; cbn [SourceStats.responseTimes]; by apply H3 ]
      | rewrite !lookup_insert_ne by done; auto ].
  - exact Hwf.
  - unfold resetSource.
    destruct (circuitBreakers s !! sid) as [b|] eqn:E; [|exact Hwf].
    intros sid0. destruct (Hwf sid0) as (H1 & H2 & H3).
    cbn [snd emit set_breaker circuitBreakers sourceStats sourceConfigs].
    destruct (decide (sid = sid0)) as [->|Hne].
    + rewrite lookup_insert_eq. rewrite E in H1, H2.
      repeat split; try discriminate; auto.
      * intros Hn. apply H1 in Hn. discriminate.
      * intros Hn. apply H2 in Hn. discriminate.
    + rewrite lookup_insert_ne by done. auto.
Qed.

Lemma run_well_formed calls s : well_formed s -> well_formed (run calls s).
Proof.
  revert s. induction calls as [|c calls IH]; intros s Hwf; [exact Hwf|].
  cbn [run foldl]. apply IH, step_well_formed, Hwf.
Qed.

Lemma new_well_formed cfg : well_formed (new cfg).
Proof.
  intros sid. cbn [new circuitBreakers sourceStats sourceConfigs].
  rewrite !lookup_empty. repeat split; auto. discriminate.
Qed.

Lemma avgResponseTime_ten rts :
  length rts = 10%nat ->
  avgResponseTime rts = Some (inject_Z (sumZ rts) / inject_Z 10)%Q.
Proof. intros H. unfold avgResponseTime. rewrite H. reflexivity. Qed.

(** C7. Take any state the service can reach from construction and a
    source registered in it, then any sequence of [recordSuccess] calls
    (for this or other sources, with or without a latency).  Afterwards
    the source's [responseTimes] are the last ten of the samples it had
    followed by the latencies the calls supplied for it, in order, so
    never more than ten; and [getSourceHealth] reports their mean.  In
    particular, eleven latencies recorded for a source that had none
    leave the last ten, and the reported mean is theirs alone. *)
Theorem responseTimes_keep_last_ten
    (cfg : CircuitBreakerConfig) (history : list (Z * call))
    (sid : string) (st : SourceStats.t) (calls : list success_call) :
  let s := run history (new cfg) in
  sourceStats s !! sid = Some st ->
  let s' := recordSuccesses calls s in
  exists st' h,
    sourceStats s' !! sid = Some st' /\
    SourceStats.responseTimes st' =
      lastN 10 (SourceStats.responseTimes st ++ samples sid calls) /\
    (length (SourceStats.responseTimes st') <= 10)%nat /\
    getSourceHealth sid s' = Some h /\
    SourceHealth.responseTimeMs h
      = avgResponseTime (SourceStats.responseTimes st') /\
    (forall first rest,
       SourceStats.responseTimes st = [] ->
       samples sid calls = first :: rest ->
       length rest = 10%nat ->
       SourceStats.responseTimes st' = rest /\
       SourceHealth.responseTimeMs h
         = Some (inject_Z (sumZ rest) / inject_Z 10)%Q).
Proof.
  intros s Hst s'.
  pose proof (run_well_formed history _ (new_well_formed cfg)) as Hwf.
  fold s in Hwf. destruct (Hwf sid) as (H1 & H2 & H3).
  destruct (circuitBreakers s !! sid) as [b|] eqn:Eb;
    [|rewrite (proj1 H1 eq_refl) in Hst; discriminate].
  destruct (sourceConfigs s !! sid) as [c|] eqn:Ec;
    [|pose proof (proj2 H2 eq_refl); discriminate].
  destruct (recordSuccesses_lookup calls s sid b st Eb Hst (H3 st Hst))
    as (Hcfg & b' & st' & Hb' & Hst' & Hrts).
  fold s' in Hcfg, Hb', Hst'.
  assert (Hh : exists h, getSourceHealth sid s' = Some h /\
             SourceHealth.responseTimeMs h
               = avgResponseTime (SourceStats.responseTimes st')).
  { unfold getSourceHealth. rewrite Hb', Hst', Hcfg, Ec.
    eexists. split; reflexivity. }
  destruct Hh as (h & Hh & Havg).
  exists st', h. split; [exact Hst'|]. split; [exact Hrts|].
  split; [rewrite Hrts; apply lastN_length|].
  split; [exact Hh|]. split; [exact Havg|].
  intros first rest Hnil Hsam Hlen.
  assert (Hrest : SourceStats.responseTimes st' = rest).
  { rewrite Hrts, Hnil, Hsam. cbn [app]. unfold lastN. cbn [length].
    rewrite Hlen. reflexivity. }
  split; [exact Hrest|].
  rewrite Havg, Hrest. by apply avgResponseTime_ten.
Qed.

Lemma responseTimes_keep_last_ten_witness :
  let src :=
    SourceConfig.mk "feed" "Feed" "http://example.com/rss" TyRss None None 50 true in
  let s := run [(0, CallRegisterSource src)] (new (mkConfig 3 60000 2)) in
  let calls : list success_call :=
    [(1, "feed", Some 900); (2, "feed", Some 10); (3, "feed", Some 20);
     (4, "other", Some 7); (5, "feed", Some 30); (6, "feed", Some 40);
     (7, "feed", None); (8, "feed", Some 50); (9, "feed", Some 60);
     (10, "feed", Some 70); (11, "feed", Some 80); (12, "feed", Some 90);
     (13, "feed", Some 100)] in
  exists st' h,
    sourceStats (recordSuccesses calls s) !! "feed" = Some st' /\
    SourceStats.responseTimes st' = [10; 20; 30; 40; 50; 60; 70; 80; 90; 100] /\
    getSourceHealth "feed" (recordSuccesses calls s) = Some h /\
    SourceHealth.responseTimeMs h = Some (inject_Z 550 / inject_Z 10)%Q.
Proof.
  intros src s calls.
  assert (Hst : sourceStats s !! "feed" = Some SourceStats.zero)
    by (vm_compute; reflexivity).
  destruct (responseTimes_keep_last_ten (mkConfig 3 60000 2)
              [(0, CallRegisterSource src)] "feed" SourceStats.zero calls Hst)
    as (st' & h & Hst' & _ & _ & Hh & _ & Hlast).
  destruct (Hlast 900 [10; 20; 30; 40; 50; 60; 70; 80; 90; 100]
              eq_refl eq_refl eq_refl) as (Hrts & Havg).
  exists st', h. split; [exact Hst'|]. split; [exact Hrts|].
  split; [exact Hh | exact Havg].
Defined.

(** C10. [recordSuccess] and [recordFailure] for a source id that has no
    breaker (or no stats record) return the service as it was: breakers,
    stats, configs and the notifications sent are all unchanged. *)
Theorem record_unregistered_noop
    (s : t) (sid : string) (now : Z) (lat : option Z) (error : string) :
  circuitBreakers s !! sid = None \/ sourceStats s !! sid = None ->
  recordSuccess now sid lat s = s /\
  recordFailure now sid error s = s.
Proof.
  intros [H|H]; unfold recordSuccess, recordFailure; rewrite H;
    by destruct (circuitBreakers s !! sid).
Qed.

Lemma record_unregistered_noop_witness :
  let src :=
    SourceConfig.mk "feed" "Feed" "http://example.com/rss" TyRss None None 50 true in
  let s := registerSource 0 src (new (mkConfig 3 60000 2)) in
  recordSuccess 5 "ghost" (Some 120) s = s /\
  recordFailure 6 "ghost" "HTTP 500" s = s /\
  emitted (recordFailure 6 "ghost" "HTTP 500" s) = [].
Proof.
  intros src s.
  assert (Hnone : circuitBreakers s !! "ghost" = None \/
                  sourceStats s !! "ghost" = None)
    by (left; vm_compute; reflexivity).
  destruct (record_unregistered_noop s "ghost" 5 (Some 120) "HTTP 500" Hnone)
    as [Hs _].
  destruct (record_unregistered_noop s "ghost" 6 None "HTTP 500" Hnone)
    as [_ Hf].
  split; [exact Hs|]. split; [exact Hf|]. rewrite Hf. reflexivity.
Defined.

End SentinelProps.

(* ===================================================================== *)
(** * Properties of the adapters' identifiers *)

Module AdapterProps.

(** The hash is the 32-bit polynomial hash with multiplier 31. *)
Example hashString_Hello : RSSAdapter.hashString "Hello" = "hash-69609650".
Proof. vm_compute. reflexivity. Qed.

Example rss_item_without_link_or_title :
  RSSAdapter.parseRSSItem [("guid", JStr "urn:1"); ("title", JNum 0)] = None.
Proof. reflexivity. Qed.

Example rss_item_with_title_only :
  ItemIdentity.id <$> RSSAdapter.parseRSSItem [("title", JStr "Hello")]
  = Some "hash-69609650".
Proof. vm_compute. reflexivity. Qed.

Lemma hashWith_nonempty prefix str :
  prefix <> "" -> JS.hashWith prefix str <> "".
Proof. unfold JS.hashWith. by destruct prefix. Qed.

(** [a || b || c] by cases on what is truthy. *)
Lemma or_chain_cases (native link : option string) (fallback : string) :
  let r := JS.or_str (JS.or_opt native link) fallback in
  (JS.truthyS native = true -> Some r = native) /\
  (JS.truthyS native = false -> JS.truthyS link = true -> Some r = link) /\
  (JS.truthyS native = false -> JS.truthyS link = false -> r = fallback).
Proof.
  cbn zeta. unfold JS.or_str, JS.or_opt.
  destruct native as [n|], link as [l|]; cbn [JS.truthyS];
    repeat (case_bool_decide; cbn [negb JS.truthyS]);
    repeat split; intros; subst; try discriminate; try reflexivity;
    repeat (case_bool_decide; cbn [negb] in *); congruence.
Qed.

Lemma or_chain_nonempty (native link : option string) (fallback : string) :
  fallback <> "" -> JS.or_str (JS.or_opt native link) fallback <> "".
Proof.
  intros Hf. unfold JS.or_str, JS.or_opt.
  destruct native as [n|], link as [l|]; cbn [JS.truthyS];
    repeat (case_bool_decide; cbn [negb JS.truthyS]); congruence.
Qed.

Lemma truthyS_or_str (a : option string) :
  JS.truthyS a = true -> a = Some (JS.or_str a "").
Proof.
  destruct a as [s|]; cbn; [|discriminate].
  case_bool_decide; cbn; [discriminate | reflexivity].
Qed.

Lemma chained_id_intro native link title fallback :
  fallback <> "" ->
  negb (JS.truthyS link) && negb (JS.truthyS title) = false ->
  chained_id native link title fallback
    {| ItemIdentity.id := JS.or_str (JS.or_opt native link) fallback;
       ItemIdentity.title := JS.or_str title "Untitled";
       ItemIdentity.link := JS.or_str link "" |}.
Proof.
  intros Hf Hkeep. unfold chained_id. cbn [ItemIdentity.id].
  destruct (or_chain_cases native link fallback) as (H1 & H2 & H3).
  split; [by apply or_chain_nonempty|].
  split; [exact H1|]. split; [exact H2|].
  intros Hn Hl. split; [|by apply H3].
  rewrite Hl in Hkeep. cbn in Hkeep. by destruct (JS.truthyS title).
Qed.

(** C4, as stated, fails: the HTML adapter gives an element with a link
    the identifier [html-<hash of the link>], not the link; here the link
    is [http://example.com/a] and the identifier [html-1069894403]. *)
Lemma html_id_is_not_the_link :
  let element :=
    HTMLAdapter.mkElement
      (Some (HTMLAdapter.mkAnchor (Some "http://example.com/a") "Hello"))
      (Some "Hello") in
  exists item,
    HTMLAdapter.extractItem (fun _ _ => None) element None = Some item /\
    ItemIdentity.link item = "http://example.com/a" /\
    ItemIdentity.id item = "html-1069894403" /\
    ItemIdentity.id item <> ItemIdentity.link item.
Proof.
  cbn zeta. eexists. split; [vm_compute; reflexivity|].
  cbn [ItemIdentity.id ItemIdentity.link]. repeat split. discriminate.
Qed.

(** C4, amended.  For every item an adapter keeps, the identifier is
    non-empty and is a function of the raw item alone:
    - RSS: the [guid] text if non-empty, else the link if non-empty, else
      [hash-] followed by the hash of the title;
    - Atom: likewise with the entry's [id] and its chosen link;
    - JSON: the first present of [id], [guid], [uuid] if non-empty, else
      the link if non-empty, else [json-] followed by the hash of the
      serialised object (not of the title);
    - HTML: always [html-] followed by the hash of the link, or of the
      title when there is no link; no native identifier is read and the
      link itself is never the identifier. *)
Theorem item_id_by_adapter
    (stringify : jsval -> string)
    (URL_href : string -> string -> option string) :
  (forall item n,
     RSSAdapter.parseRSSItem item = Some n ->
     let title := RSSAdapter.getString (JS.get (JObj item) "title") in
     chained_id (RSSAdapter.getString (JS.get (JObj item) "guid"))
                (RSSAdapter.getString (JS.get (JObj item) "link"))
                title
                (RSSAdapter.hashString (JS.or_str title "")) n) /\
  (forall entry n,
     RSSAdapter.parseAtomEntry entry = Some n ->
     let title := RSSAdapter.getString (JS.get (JObj entry) "title") in
     chained_id (RSSAdapter.getString (JS.get (JObj entry) "id"))
                (RSSAdapter.getAtomLink (JS.get (JObj entry) "link"))
                title
                (RSSAdapter.hashString (JS.or_str title "")) n) /\
  (forall obj n,
     JSONAdapter.mapToNewsItem stringify obj = Some n ->
     chained_id (JSONAdapter.getString obj ["id"; "guid"; "uuid"])
                (JSONAdapter.getString obj ["link"; "url"; "href"; "permalink"])
                (JSONAdapter.getString obj ["title"; "name"; "headline"])
                (JSONAdapter.hashObject stringify obj) n) /\
  (forall element baseUrl n,
     HTMLAdapter.extractItem URL_href element baseUrl = Some n ->
     let link :=
       JS.or_str (HTMLAdapter.linkEl element ≫= HTMLAdapter.href) "" in
     let title :=
       JS.or_str
         (JS.or_opt (JS.trim <$> HTMLAdapter.titleEl element)
            (JS.trim <$> (HTMLAdapter.anchorText <$> HTMLAdapter.linkEl element)))
         "" in
     ItemIdentity.id n <> "" /\
     (link <> "" -> ItemIdentity.id n = HTMLAdapter.hashString link) /\
     (link = "" -> title <> "" /\ ItemIdentity.id n = HTMLAdapter.hashString title)).
Proof.
  split; [|split; [|split]].
  - intros item n. unfold RSSAdapter.parseRSSItem.
    destruct (negb _ && negb _) eqn:Hkeep; [discriminate|].
    intros [= <-]. cbn zeta.
    apply chained_id_intro; [by apply hashWith_nonempty | exact Hkeep].
  - intros entry n. unfold RSSAdapter.parseAtomEntry.
    destruct (negb _ && negb _) eqn:Hkeep; [discriminate|].
    intros [= <-]. cbn zeta.
    apply chained_id_intro; [by apply hashWith_nonempty | exact Hkeep].
  - intros obj n. unfold JSONAdapter.mapToNewsItem.
    destruct (negb (JS.truthy obj) || _); [discriminate|].
    destruct (negb _ && negb _) eqn:Hkeep; [discriminate|].
    intros [= <-].
    apply chained_id_intro; [by apply hashWith_nonempty | exact Hkeep].
  - intros element baseUrl n. unfold HTMLAdapter.extractItem.
    cbn zeta.
    set (l := JS.or_str (HTMLAdapter.linkEl element ≫= HTMLAdapter.href) "").
    set (t := JS.or_str _ "").
    destruct (bool_decide (l = "")) eqn:El; cbn [andb].
    + destruct (bool_decide (t = "")) eqn:Et; [discriminate|].
      intros [= <-]. cbn [ItemIdentity.id].
      apply bool_decide_eq_true_1 in El. apply bool_decide_eq_false_1 in Et.
      split; [by apply hashWith_nonempty|]. split; [congruence | auto].
    + intros [= <-]. cbn [ItemIdentity.id].
      apply bool_decide_eq_false_1 in El.
      split; [by apply hashWith_nonempty|]. split; [auto | congruence].
Qed.

Lemma item_id_by_adapter_witness :
  let stringify := fun _ : jsval => "{}" in
  let URL_href := fun _ _ : string => @None string in
  let rss := [("title", JStr "Launch"); ("guid", JObj [("#text", JStr "urn:1")]);
              ("link", JStr "http://example.com/1")] in
  let atom := [("title", JStr "Launch");
               ("link", JObj [("@_href", JStr "http://example.com/2")])] in
  let json := JObj [("headline", JStr "Launch"); ("id", JNum 0)] in
  let html := HTMLAdapter.mkElement
                (Some (HTMLAdapter.mkAnchor None " Launch ")) None in
  (ItemIdentity.id <$> RSSAdapter.parseRSSItem rss) = Some "urn:1" /\
  (ItemIdentity.id <$> RSSAdapter.parseAtomEntry atom) = Some "http://example.com/2" /\
  (ItemIdentity.id <$> JSONAdapter.mapToNewsItem stringify json) = Some "0" /\
  (exists n, HTMLAdapter.extractItem URL_href html None = Some n /\
             ItemIdentity.id n = HTMLAdapter.hashString "Launch").
Proof.
  intros stringify URL_href rss atom json html.
  destruct (item_id_by_adapter stringify URL_href) as (Hrss & Hatom & Hjson & Hhtml).
  split; [|split; [|split]].
  - destruct (RSSAdapter.parseRSSItem rss) as [n|] eqn:E; [|discriminate E].
    destruct (Hrss rss n E) as (_ & Hnative & _).
    exact (Hnative eq_refl).
  - destruct (RSSAdapter.parseAtomEntry atom) as [n|] eqn:E; [|discriminate E].
    destruct (Hatom atom n E) as (_ & _ & Hlink & _).
    exact (Hlink eq_refl eq_refl).
  - destruct (JSONAdapter.mapToNewsItem stringify json) as [n|] eqn:E;
      [|discriminate E].
    destruct (Hjson json n E) as (_ & Hnative & _).
    exact (Hnative eq_refl).
  - destruct (HTMLAdapter.extractItem URL_href html None) as [n|] eqn:E;
      [|discriminate E].
    exists n. split; [reflexivity|].
    destruct (Hhtml html None n E) as (_ & _ & Htitle).
    destruct (Htitle eq_refl) as [_ Hid]. exact Hid.
Defined.

End AdapterProps.

(* ===================================================================== *)
(** * Properties of the [fetch-news] pipeline *)

Module FetchProps.
Import FetchNews.

Lemma includes_empty s : JS.includes "" s = true.
Proof. by destruct s. Qed.

Lemma matches_empty item : matches "" item = true.
Proof. unfold matches. by rewrite includes_empty. Qed.

Lemma filter_all {A} (f : A -> bool) (l : list A) :
  (forall x, f x = true) -> List.filter f l = l.
Proof.
  intros Hf. induction l as [|x l IH]; [reflexivity|].
  cbn [List.filter]. by rewrite Hf, IH.
Qed.

Lemma lowerChar_idemp c : JS.lowerChar (JS.lowerChar c) = JS.lowerChar c.
Proof. destruct c as [[] [] [] [] [] [] [] []]; vm_compute; reflexivity. Qed.

Lemma toLowerCase_idemp s :
  JS.toLowerCase (JS.toLowerCase s) = JS.toLowerCase s.
Proof.
  induction s as [|c s IH]; [reflexivity|].
  cbn [JS.toLowerCase]. by rewrite lowerChar_idemp, IH.
Qed.

(** The filtering stage keeps exactly the [selected] items. *)
Lemma filter_stage filter allItems :
  (if JS.truthyS filter
   then List.filter (matches (JS.toLowerCase (default "" filter))) allItems
   else allItems) = selected filter allItems.
Proof.
  destruct filter as [f|]; [|reflexivity].
  cbn [JS.truthyS selected default]. case_bool_decide as Hf; [|reflexivity].
  subst f. cbn [negb JS.toLowerCase].
  symmetry. apply filter_all, matches_empty.
Qed.

(** The sort is a permutation and orders newest first. *)
Lemma insertSorted_perm x l : insertSorted compareItems x l ≡ₚ x :: l.
Proof.
  induction l as [|y l IH]; [reflexivity|].
  cbn [insertSorted]. case_bool_decide; [reflexivity|].
  rewrite IH. apply Permutation_swap.
Qed.

Lemma sort_perm l : sort compareItems l ≡ₚ l.
Proof.
  induction l as [|x l IH]; [reflexivity|].
  cbn [sort]. by rewrite insertSorted_perm, IH.
Qed.

Lemma insertSorted_sorted x l :
  StronglySorted newer_or_same l ->
  StronglySorted newer_or_same (insertSorted compareItems x l).
Proof.
  induction l as [|y l IH]; intros Hs; cbn [insertSorted].
  - repeat constructor.
  - apply StronglySorted_cons in Hs as [Hy Hl].
    case_bool_decide as Hc; unfold compareItems in Hc.
    + apply StronglySorted_cons. split.
      * constructor; [unfold newer_or_same; lia|].
        eapply Forall_impl; [exact Hy|].
        unfold newer_or_same. intros z Hz. lia.
      * by apply StronglySorted_cons.
    + apply StronglySorted_cons. split; [|by apply IH].
      rewrite insertSorted_perm. constructor; [|exact Hy].
      unfold newer_or_same. lia.
Qed.

Lemma sort_sorted l : StronglySorted newer_or_same (sort compareItems l).
Proof.
  induction l as [|x l IH]; [constructor|].
  cbn [sort]. by apply insertSorted_sorted.
Qed.

Lemma StronglySorted_take {A} (R : relation A) n l :
  StronglySorted R l -> StronglySorted R (take n l).
Proof.
  intros Hs. rewrite <- (take_drop n l) in Hs.
  by apply StronglySorted_app_1_l in Hs.
Qed.

Lemma StronglySorted_lookup {A} (R : relation A) l (i j : nat) a b :
  StronglySorted R l -> l !! i = Some a -> l !! j = Some b -> (i < j)%nat ->
  R a b.
Proof.
  intros Hs. revert i j. induction Hs as [|x l Hs IH Hx]; intros i j Ha Hb Hij.
  - discriminate.
  - destruct j as [|j]; [lia|]. cbn in Hb. destruct i as [|i].
    + cbn in Ha. injection Ha as <-.
      rewrite Forall_forall in Hx. apply Hx.
      eapply list_elem_of_lookup_2. exact Hb.
    + cbn in Ha. apply (IH i j Ha Hb). lia.
Qed.

Lemma slice0_take {A} (l : list A) (limit : Z) :
  0 <= limit -> slice0 l limit = take (Z.to_nat limit) l.
Proof.
  intros Hl. unfold slice0. rewrite bool_decide_eq_false_2 by lia.
  destruct (decide (limit <= Z.of_nat (length l))) as [Hle|Hgt].
  - by rewrite Z.min_l by lia.
  - rewrite Z.min_r by lia. rewrite Nat2Z.id.
    rewrite !take_ge by lia. reflexivity.
Qed.

(** C8, as stated, fails: an item without a date is ranked at the epoch,
    not as earliest, so it comes out in front of an item dated 1969. *)
Lemma undated_item_before_pre_epoch_item :
  let dated :=
    NewsItem.mk "a" "Moon landing" "http://example.com/a" None None None
      (Some (-14182940000)) [] "s" "S" None in
  let undated :=
    NewsItem.mk "b" "No date" "http://example.com/b" None None None
      None [] "s" "S" None in
  fetchNews None 10 [dated; undated] = [undated; dated] /\
  ~ undated_last (fetchNews None 10 [dated; undated]).
Proof.
  cbn zeta. split; [vm_compute; reflexivity|].
  intros Hlast.
  specialize (Hlast 0%nat 1%nat _ _ eq_refl eq_refl ltac:(lia) eq_refl).
  discriminate Hlast.
Qed.

(** C8, amended.  For a limit that is not negative, the result of the
    pipeline is the first [limit] items of a rearrangement of the
    selected items that is ordered newest first by the comparator's date:
    [publishedAt] when present, the epoch (timestamp 0) when absent.  So
    an undated item comes after the items dated later than the epoch and
    before those dated earlier.  The selected items are all items when no
    filter text is given, and otherwise those whose lower-cased title,
    description or content contains the lower-cased filter text; the case
    of the filter text makes no difference. *)
Theorem fetchNews_filter_sort_limit
    (filter : option string) (limit : Z) (allItems : list NewsItem.t) :
  0 <= limit ->
  let result := fetchNews filter limit allItems in
  (exists sorted,
     sorted ≡ₚ selected filter allItems /\
     StronglySorted newer_or_same sorted /\
     result = take (Z.to_nat limit) sorted) /\
  (forall (i j : nat) a b,
     result !! i = Some a -> result !! j = Some b -> (i < j)%nat ->
     dateOf b <= dateOf a) /\
  (length result <= Z.to_nat limit)%nat /\
  (forall f, selected (Some (JS.toLowerCase f)) allItems
             = selected (Some f) allItems).
Proof.
  intros Hlimit result.
  assert (Hres : result
            = take (Z.to_nat limit) (sort compareItems (selected filter allItems))).
  { unfold result, fetchNews. cbn zeta.
    rewrite filter_stage. by apply slice0_take. }
  split; [|split; [|split]].
  - exists (sort compareItems (selected filter allItems)).
    split; [apply sort_perm|]. split; [apply sort_sorted | exact Hres].
  - intros i j a b Ha Hb Hij.
    apply (StronglySorted_lookup newer_or_same result i j a b); try assumption.
    rewrite Hres. apply StronglySorted_take, sort_sorted.
  - rewrite Hres, length_take. lia.
  - intros f. cbn [selected]. by rewrite toLowerCase_idemp.
Qed.

Lemma fetchNews_filter_sort_limit_witness :
  let item := fun (i t : string) (d : option Z) =>
    NewsItem.mk i t "http://example.com" None None None d [] "s" "S" None in
  let allItems :=
    [item "1" "Moon base opens" (Some 1700000000000);
     item "2" "Weather" (Some 1800000000000);
     item "3" "MOON rover" None;
     item "4" "Blue moon" (Some 1750000000000)] in
  (NewsItem.id <$> fetchNews (Some "Moon") 2 allItems) = ["4"; "1"] /\
  (length (fetchNews (Some "Moon") 2 allItems) <= 2)%nat.
Proof.
  intros item allItems.
  assert (Hl : 0 <= 2) by (vm_compute; discriminate).
  destruct (fetchNews_filter_sort_limit (Some "Moon") 2 allItems Hl)
    as (_ & _ & Hlen & _).
  split; [vm_compute; reflexivity | exact Hlen].
Defined.

End FetchProps.

(* ===================================================================== *)
(** * Further properties of the circuit breaker *)

Module BreakerExtra.
Import CircuitBreaker.
Import BreakerProps.

(** One [recordSuccess] call, field by field. *)
Lemma recordSuccess_config now b : config (recordSuccess now b) = config b.
Proof. breaker_open b. breaker_eval. breaker_cases; reflexivity. Qed.

Lemma recordSuccess_failureCount now b : failureCount (recordSuccess now b) = 0.
Proof. breaker_open b. breaker_eval. breaker_cases; reflexivity. Qed.

Lemma recordSuccess_half_open now b :
  state b = HALF_OPEN ->
  let b' := recordSuccess now b in
  if bool_decide (successThreshold (config b) <= successCount b + 1)
  then state b' = CLOSED /\ successCount b' = 0 /\ nextAttemptTime b' = None
       /\ lastStateChange b' = now
  else state b' = HALF_OPEN /\ successCount b' = successCount b + 1
       /\ nextAttemptTime b' = nextAttemptTime b.
Proof.
  intros Hs. breaker_open b. breaker_eval. breaker_cases; repeat split.
Qed.

Lemma recordSuccess_not_half_open now b :
  state b <> HALF_OPEN ->
  let b' := recordSuccess now b in
  state b' = state b /\ successCount b' = successCount b + 1 /\
  nextAttemptTime b' = nextAttemptTime b /\
  lastStateChange b' = lastStateChange b.
Proof.
  intros Hs. breaker_open b. breaker_eval. breaker_cases; repeat split.
Qed.

Lemma recordSuccesses_snoc times now b :
  recordSuccesses (times ++ [now]) b = recordSuccess now (recordSuccesses times b).
Proof. unfold recordSuccesses. by rewrite foldl_snoc. Qed.

(** A run of successes from [HALF_OPEN], below the threshold at first. *)
Lemma recordSuccesses_from_half_open times b :
  state b = HALF_OPEN ->
  successCount b < successThreshold (config b) ->
  let b' := recordSuccesses times b in
  let n := Z.of_nat (length times) in
  let need := successThreshold (config b) - successCount b in
  config b' = config b /\
  (0 < n -> failureCount b' = 0) /\
  (n < need ->
   state b' = HALF_OPEN /\ successCount b' = successCount b + n /\
   nextAttemptTime b' = nextAttemptTime b) /\
  (need <= n ->
   state b' = CLOSED /\ successCount b' = n - need /\
   nextAttemptTime b' = None).
Proof.
  intros Hs Hlt. induction times as [|now times IH] using rev_ind; cbn zeta.
  - cbn [length recordSuccesses foldl]. split; [reflexivity|].
    split; [cbn; lia|]. split.
    + intros _. repeat split; [exact Hs | lia].
    + cbn. lia.
  - cbn zeta in IH. destruct IH as (Hcfg & _ & Hbelow & Habove).
    rewrite recordSuccesses_snoc, recordSuccess_config, length_app.
    cbn [length]. split; [exact Hcfg|].
    split; [intros _; apply recordSuccess_failureCount|].
    set (b1 := recordSuccesses times b) in *.
    destruct (decide (Z.of_nat (length times)
                      < successThreshold (config b) - successCount b))
      as [Hb|Hb].
    + destruct (Hbelow Hb) as (Hs1 & Hc1 & Hn1).
      pose proof (recordSuccess_half_open now b1 Hs1) as Hstep.
      cbn zeta in Hstep. rewrite Hcfg, Hc1 in Hstep.
      case_bool_decide as Hd.
      * destruct Hstep as (H1 & H2 & H3 & _).
        split; [lia|]. intros _. rewrite H1, H2, H3. repeat split. lia.
      * destruct Hstep as (H1 & H2 & H3).
        split; [|lia]. intros _. rewrite H1, H2, H3, Hn1. repeat split. lia.
    + destruct (Habove ltac:(lia)) as (Hs1 & Hc1 & Hn1).
      assert (Hne : state b1 <> HALF_OPEN) by (rewrite Hs1; discriminate).
      destruct (recordSuccess_not_half_open now b1 Hne) as (H1 & H2 & H3 & _).
      split; [lia|]. intros _. rewrite H1, H2, H3, Hs1, Hc1, Hn1.
      repeat split. lia.
Qed.

(** X1. From [HALF_OPEN] with the success count below [successThreshold],
    consecutive successes keep the breaker [HALF_OPEN] until the count
    reaches the threshold; that call closes it with both counters zero
    and [nextAttemptTime] null, and it stays [CLOSED] under further
    successes, which count up from zero again. *)
Theorem half_open_successes_close (b : t) (times : list Z) (k : nat) :
  state b = HALF_OPEN ->
  successCount b < successThreshold (config b) ->
  (k <= length times)%nat ->
  let b' := recordSuccesses (take k times) b in
  let need := successThreshold (config b) - successCount b in
  (Z.of_nat k < need ->
   state b' = HALF_OPEN /\ successCount b' = successCount b + Z.of_nat k) /\
  (Z.of_nat k = need ->
   state b' = CLOSED /\ successCount b' = 0 /\ failureCount b' = 0 /\
   nextAttemptTime b' = None) /\
  (need <= Z.of_nat k ->
   state b' = CLOSED /\ successCount b' = Z.of_nat k - need).
Proof.
  intros Hs Hlt Hk. cbn zeta.
  destruct (recordSuccesses_from_half_open (take k times) b Hs Hlt)
    as (_ & Hfc & Hbelow & Habove).
  rewrite length_take, Nat.min_l in Hfc, Hbelow, Habove by lia.
  split; [|split].
  - intros H. destruct (Hbelow H) as (H1 & H2 & _). by split.
  - intros H. destruct (Habove ltac:(lia)) as (H1 & H2 & H3).
    repeat split; try assumption; [lia | apply Hfc; lia].
  - intros H. destruct (Habove H) as (H1 & H2 & _). by split.
Qed.

Lemma half_open_successes_close_witness :
  let b := (canExecute 60000
              (transitionTo 0 OPEN (new "feed" (mkConfig 3 60000 2) 0))).2 in
  state (recordSuccesses (take 1 [60001; 60002; 60003]) b) = HALF_OPEN /\
  state (recordSuccesses (take 2 [60001; 60002; 60003]) b) = CLOSED /\
  successCount (recordSuccesses (take 3 [60001; 60002; 60003]) b) = 1.
Proof.
  cbn zeta.
  pose (b := (canExecute 60000
                (transitionTo 0 OPEN (new "feed" (mkConfig 3 60000 2) 0))).2).
  assert (Hs : state b = HALF_OPEN) by reflexivity.
  assert (Hlt : successCount b < successThreshold (config b)) by reflexivity.
  split; [|split].
  - apply (half_open_successes_close b [60001; 60002; 60003] 1 Hs Hlt);
      [simpl; lia | reflexivity].
  - apply (half_open_successes_close b [60001; 60002; 60003] 2 Hs Hlt);
      [simpl; lia | reflexivity].
  - destruct (half_open_successes_close b [60001; 60002; 60003] 3 Hs Hlt)
      as (_ & _ & H); [simpl; lia|].
    destruct H as [_ H]; [vm_compute; discriminate|]. exact H.
Defined.

(** X2. After [reset], whatever the breaker was, a run of failures behaves
    as on a new breaker: the count is the length of the run and the
    breaker is [OPEN] exactly when the run is non-empty and at least
    [failureThreshold] long.  The earlier streak is forgotten;
    [lastFailureTime] is not. *)
Theorem reset_forgets_streak (b : t) (now : Z) (calls : list (Z * string)) :
  let b' := recordFailures calls (reset now b) in
  failureCount b' = Z.of_nat (length calls) /\
  state b' =
    (if bool_decide (calls <> [])
        && bool_decide (failureThreshold (config b) <= Z.of_nat (length calls))
     then OPEN else CLOSED) /\
  lastFailureTime (reset now b) = lastFailureTime b /\
  nextAttemptTime (reset now b) = None.
Proof.
  cbn zeta.
  assert (Hr : state (reset now b) = CLOSED /\ failureCount (reset now b) = 0
               /\ config (reset now b) = config b
               /\ lastFailureTime (reset now b) = lastFailureTime b
               /\ nextAttemptTime (reset now b) = None).
  { breaker_open b. breaker_eval. repeat split. }
  destruct Hr as (Hs & Hc & Hcfg & Hl & Hn).
  destruct (recordFailures_from_closed calls (reset now b) Hs) as (_ & Hcnt & Hst).
  rewrite Hc, Z.add_0_l in Hcnt. rewrite Hst, Hcnt, Hcfg. auto.
Qed.

(** X3. A success recorded in [CLOSED] clears the failure streak: however
    many failures came before it, the breaker opens again only once a
    following run of failures is at least [failureThreshold] long. *)
Theorem success_clears_failure_streak
    (b : t) (now : Z) (calls : list (Z * string)) :
  state b = CLOSED ->
  let b' := recordFailures calls (recordSuccess now b) in
  failureCount b' = Z.of_nat (length calls) /\
  state b' =
    (if bool_decide (calls <> [])
        && bool_decide (failureThreshold (config b) <= Z.of_nat (length calls))
     then OPEN else CLOSED).
Proof.
  intros Hs. cbn zeta.
  destruct (recordSuccess_not_half_open now b) as (Hs1 & _);
    [rewrite Hs; discriminate|].
  rewrite Hs in Hs1.
  destruct (recordFailures_from_closed calls (recordSuccess now b) Hs1)
    as (_ & Hcnt & Hst).
  rewrite recordSuccess_failureCount, Z.add_0_l in Hcnt.
  rewrite Hst, Hcnt, recordSuccess_config. auto.
Qed.

Lemma success_clears_failure_streak_witness :
  let b := recordFailures [(1, "e"); (2, "e")] (new "feed" (mkConfig 3 60000 2) 0) in
  failureCount b = 2 /\
  state (recordFailures [(4, "e"); (5, "e")] (recordSuccess 3 b)) = CLOSED.
Proof.
  cbn zeta. split; [reflexivity|].
  destruct (success_clears_failure_streak
              (recordFailures [(1, "e"); (2, "e")]
                 (new "feed" (mkConfig 3 60000 2) 0))
              3 [(4, "e"); (5, "e")] eq_refl) as [_ H].
  exact H.
Defined.

(** Every public call keeps the counters in order. *)
Lemma step_counters_ok b c : counters_ok b -> counters_ok (step b c).
Proof.
  destruct c as [now op]. unfold counters_ok.
  breaker_open b. intros (H1 & H2 & H3 & H4).
  assert (H4' : st = CLOSED -> 1 <= failureThreshold cfg ->
                fc < failureThreshold cfg) by exact H4.
  clear H4.
  destruct op;
    [ destruct st, nxt | destruct st, nxt | destruct st | destruct st | | ].
  all: breaker_eval.
  all: repeat (case_bool_decide; cbn [andb orb negb fst snd] in * ).
  all: (split; [|split; [|split]]).
  all: first [ assumption | discriminate | lia | tauto
          | intros; first [discriminate | lia | apply H4'; auto] ].
Qed.

(** X4. After any sequence of public calls on a new breaker, both streak
    counters are non-negative, at least one of them is zero, and a
    [CLOSED] breaker whose threshold is positive has fewer failures than
    the threshold. *)
Theorem counters_stay_ordered
    (sid : string) (cfg : CircuitBreakerConfig) (t0 : Z)
    (calls : list (Z * call)) :
  let b := run calls (new sid cfg t0) in
  0 <= failureCount b /\ 0 <= successCount b /\
  (failureCount b = 0 \/ successCount b = 0) /\
  (state b = CLOSED -> 1 <= failureThreshold cfg ->
   failureCount b < failureThreshold cfg).
Proof.
  cbn zeta.
  assert (Hcfg : forall calls b, config (run calls b) = config b).
  { clear. intros calls. induction calls as [|[now op] calls IH]; intros b;
      [reflexivity|].
    cbn [run foldl]. fold (run calls (step b (now, op))). rewrite IH.
    breaker_open b.
    destruct op, st, nxt; breaker_eval; breaker_cases; reflexivity. }
  assert (Hinv : forall calls b, counters_ok b -> counters_ok (run calls b)).
  { clear. intros calls. induction calls as [|c calls IH]; intros b Hb;
      [exact Hb|].
    cbn [run foldl]. apply IH, step_counters_ok, Hb. }
  pose proof (Hinv calls (new sid cfg t0)) as H.
  unfold counters_ok in H. rewrite Hcfg in H. cbn [new config] in H.
  apply H. cbn. repeat split; try lia; auto.
Qed.

(** X5. A breaker that is not [OPEN] admits every caller: any number of
    [canExecute] calls, at any times, all answer [true] and leave the
    breaker as it was.  In [HALF_OPEN] there is no limit on the number of
    trial requests. *)
Theorem not_open_admits_all (b : t) (times : list Z) :
  state b <> OPEN ->
  canExecutes times b = (replicate (length times) true, b).
Proof.
  intros Hs. induction times as [|now times IH]; [reflexivity|].
  cbn [canExecutes length replicate].
  assert (H1 : canExecute now b = (true, b)).
  { breaker_open b. destruct st; try congruence; reflexivity. }
  by rewrite H1, IH.
Qed.

Lemma not_open_admits_all_witness :
  let b := (canExecute 60000
              (transitionTo 0 OPEN (new "feed" (mkConfig 3 60000 2) 0))).2 in
  state b = HALF_OPEN /\
  (canExecutes [60001; 60001; 60002; 90000] b).1 = [true; true; true; true].
Proof.
  cbn zeta. split; [reflexivity|].
  rewrite (not_open_admits_all
             (canExecute 60000
                (transitionTo 0 OPEN (new "feed" (mkConfig 3 60000 2) 0))).2
             [60001; 60001; 60002; 90000]); [reflexivity|].
  vm_compute. discriminate.
Defined.

(** X6. A success recorded while the breaker is [OPEN] does not close it
    and does not move the deadline, but it does clear the failure count:
    with a threshold above one, the next failure then leaves the breaker
    [OPEN] with the deadline still where it was. *)
Theorem success_while_open (b : t) (t1 t2 : Z) (error : string) :
  state b = OPEN ->
  2 <= failureThreshold (config b) ->
  let b1 := recordSuccess t1 b in
  let b2 := recordFailure t2 error b1 in
  state b1 = OPEN /\ nextAttemptTime b1 = nextAttemptTime b /\
  failureCount b1 = 0 /\
  state b2 = OPEN /\ nextAttemptTime b2 = nextAttemptTime b /\
  lastStateChange b2 = lastStateChange b.
Proof.
  intros Hs Hthr. breaker_open b. breaker_eval.
  breaker_cases; repeat split.
Qed.

Lemma success_while_open_witness :
  let b := recordFailures [(10, "e"); (20, "e"); (30, "e")]
             (new "feed" (mkConfig 3 60000 2) 0) in
  nextAttemptTime (recordFailure 50 "e" (recordSuccess 40 b)) = Some 60030.
Proof.
  cbn zeta.
  assert (Hthr : 2 <= 3) by (vm_compute; discriminate).
  destruct (success_while_open
              (recordFailures [(10, "e"); (20, "e"); (30, "e")]
                 (new "feed" (mkConfig 3 60000 2) 0)) 40 50 "e" eq_refl Hthr)
    as (_ & _ & _ & _ & H & _).
  exact H.
Defined.

(** X7. [canExecute] answers [true] exactly when [getState], asked at the
    same instant, does not answer [OPEN], and both leave the same
    breaker behind. *)
Theorem canExecute_agrees_with_getState (b : t) (now : Z) :
  canExecute now b
  = (bool_decide ((getState now b).1 <> OPEN), (getState now b).2).
Proof.
  breaker_open b. destruct st, nxt; breaker_eval; breaker_cases; reflexivity.
Qed.

End BreakerExtra.

(* ===================================================================== *)
(** * Further properties of the sentinel registry *)

Module SentinelExtra.
Import SentinelService.
Import SentinelProps.

(** One [recordFailure] call for a registered source. *)
Lemma recordFailure_registered now sid error s b st :
  circuitBreakers s !! sid = Some b ->
  sourceStats s !! sid = Some st ->
  let s' := recordFailure now sid error s in
  let b' := CircuitBreaker.recordFailure now error b in
  circuitBreakers s' !! sid = Some b' /\
  sourceStats s' !! sid =
    Some (SourceStats.mk (SourceStats.totalRequests st + 1)
            (SourceStats.totalFailures st + 1) (SourceStats.lastSuccess st)
            (Some now) (Some error) (SourceStats.responseTimes st)) /\
  sourceConfigs s' = sourceConfigs s /\
  emitted s' =
    emitted s ++
    (if bool_decide (CircuitBreaker.state b' = OPEN)
     then [source_unhealthy sid error; circuit_opened sid error]
     else [source_degraded sid (CircuitBreaker.failureCount b')]).
Proof.
  intros Hb Hst. cbn zeta. unfold recordFailure. rewrite Hb, Hst.
  cbn [CircuitBreaker.getMetrics CircuitBreaker.m_state
       CircuitBreaker.m_failureCount].
  case_bool_decide;
    cbn [emit set_stats set_breaker circuitBreakers sourceStats
         sourceConfigs emitted];
    rewrite !lookup_insert_eq, <- ?app_assoc; auto.
Qed.

(** A run of failures of one registered source. *)
Lemma recordFailures_registered calls sid s b st :
  circuitBreakers s !! sid = Some b ->
  sourceStats s !! sid = Some st ->
  let s' := recordFailures sid calls s in
  let n := Z.of_nat (length calls) in
  circuitBreakers s' !! sid = Some (CircuitBreaker.recordFailures calls b) /\
  sourceConfigs s' = sourceConfigs s /\
  exists st',
    sourceStats s' !! sid = Some st' /\
    SourceStats.totalRequests st' = SourceStats.totalRequests st + n /\
    SourceStats.totalFailures st' = SourceStats.totalFailures st + n /\
    SourceStats.responseTimes st' = SourceStats.responseTimes st /\
    SourceStats.lastSuccess st' = SourceStats.lastSuccess st.
Proof.
  revert s b st. induction calls as [|[now e] calls IH]; intros s b st Hb Hst;
    cbn zeta.
  - cbn [recordFailures foldl length]. split; [exact Hb|].
    split; [reflexivity|]. exists st. rewrite !Z.add_0_r. auto.
  - cbn [recordFailures foldl fst snd CircuitBreaker.recordFailures].
    destruct (recordFailure_registered now sid e s b st Hb Hst)
      as (Hb1 & Hst1 & Hcfg1 & _).
    destruct (IH _ _ _ Hb1 Hst1) as (Hb' & Hcfg' & st' & Hst' & H1 & H2 & H3 & H4).
    unfold recordFailures in *. cbn [fst snd] in *.
    split; [exact Hb'|]. split; [congruence|].
    exists st'. cbn [SourceStats.totalRequests SourceStats.totalFailures
                     SourceStats.responseTimes SourceStats.lastSuccess] in *.
    cbn [length]. repeat split; try assumption; lia.
Qed.

(** X8. Register a source that was not registered and let it fail, call
    after call, at least [failureThreshold] times.  Until
    [recoveryTimeoutMs] after the last failure, [canRequest] answers
    [false] and changes nothing, and [getSourceHealth] reports the source
    [unhealthy] with the circuit [OPEN], all failures counted as
    consecutive and every request a failure. *)
Theorem failures_block_requests
    (s0 : t) (src : SourceConfig.t) (t0 : Z)
    (calls : list (Z * string)) (tlast : Z) (elast : string) (now : Z) :
  let sid := SourceConfig.id src in
  let all := calls ++ [(tlast, elast)] in
  let n := Z.of_nat (length all) in
  let s := recordFailures sid all (registerSource t0 src s0) in
  circuitBreakers s0 !! sid = None ->
  failureThreshold (config s0) <= n ->
  now < tlast + recoveryTimeoutMs (config s0) ->
  canRequest now sid s = (false, s) /\
  exists h,
    getSourceHealth sid s = Some h /\
    SourceHealth.status h = UNHEALTHY /\
    SourceHealth.circuitState h = OPEN /\
    SourceHealth.consecutiveFailures h = n /\
    SourceHealth.totalRequests h = n /\
    SourceHealth.totalFailures h = n /\
    SourceHealth.lastError h = Some elast.
Proof.
  intros sid all n s Hfresh Hthr Hnow.
  set (s1 := registerSource t0 src s0).
  set (b0 := CircuitBreaker.new sid (config s0) t0).
  assert (Hb1 : circuitBreakers s1 !! sid = Some b0).
  { unfold s1, registerSource. fold sid. rewrite Hfresh. cbn.
    apply lookup_insert_eq. }
  assert (Hst1 : sourceStats s1 !! sid = Some SourceStats.zero).
  { unfold s1, registerSource. fold sid. rewrite Hfresh. cbn.
    apply lookup_insert_eq. }
  assert (Hc1 : sourceConfigs s1 !! sid = Some src).
  { unfold s1, registerSource. fold sid. rewrite Hfresh. cbn.
    apply lookup_insert_eq. }
  destruct (recordFailures_registered all sid s1 b0 SourceStats.zero Hb1 Hst1)
    as (Hb & Hcfg & st' & Hst & Hreq & Hfail & _ & _).
  assert (Hs : s = recordFailures sid all s1) by reflexivity.
  clearbody s. rewrite <- Hs in Hb, Hcfg, Hst. fold n in Hreq, Hfail.
  set (b := CircuitBreaker.recordFailures all b0) in *.
  destruct (BreakerProps.recordFailures_from_closed all b0 eq_refl)
    as (Hbcfg & Hcnt & Hstate).
  fold b in Hbcfg, Hcnt, Hstate. cbn [b0 CircuitBreaker.new
    CircuitBreaker.config CircuitBreaker.failureCount] in Hbcfg, Hcnt, Hstate.
  rewrite Z.add_0_l in Hcnt. fold n in Hcnt.
  assert (Hopen : CircuitBreaker.state b = OPEN).
  { rewrite Hstate, Hcnt.
    rewrite (bool_decide_eq_true_2 (all <> [])) by (unfold all; by destruct calls).
    by rewrite bool_decide_eq_true_2 by exact Hthr. }
  assert (Hnext : CircuitBreaker.nextAttemptTime b
                  = Some (tlast + recoveryTimeoutMs (config s0))).
  { unfold b, all. rewrite BreakerProps.recordFailures_snoc.
    rewrite BreakerProps.recordFailure_nextAttemptTime. cbn [fst snd].
    destruct (BreakerProps.recordFailures_from_closed calls b0 eq_refl)
      as (Hpc & Hpn & _).
    rewrite Hpc, Hpn. cbn [b0 CircuitBreaker.new CircuitBreaker.config
      CircuitBreaker.failureCount].
    unfold n, all in Hthr. rewrite length_app in Hthr. cbn [length] in Hthr.
    rewrite (bool_decide_eq_true_2 (_ <= _)) by lia.
    by rewrite orb_true_r. }
  split.
  - unfold canRequest. rewrite Hb.
    rewrite (BreakerProps.canExecute_before_deadline now b _ Hopen Hnext Hnow).
    f_equal. unfold set_breaker. rewrite insert_id by exact Hb.
    by destruct s.
  - assert (Herr : SourceStats.lastError st' = Some elast).
    { clear - Hs Hst Hb1 Hst1. subst s.
      unfold all, recordFailures in Hst. rewrite foldl_snoc in Hst.
      cbn [fst snd] in Hst.
      fold (recordFailures sid calls s1) in Hst.
      destruct (recordFailures_registered calls sid s1 _ _ Hb1 Hst1)
        as (Hb2 & _ & st2 & Hst2 & _).
      destruct (recordFailure_registered tlast sid elast _ _ _ Hb2 Hst2)
        as (_ & Hst3 & _).
      rewrite Hst3 in Hst. by injection Hst as <-. }
    unfold getSourceHealth. rewrite Hb, Hst, Hcfg, Hc1.
    eexists. split; [reflexivity|].
    cbn [SourceHealth.status SourceHealth.circuitState
         SourceHealth.consecutiveFailures SourceHealth.totalRequests
         SourceHealth.totalFailures SourceHealth.lastError
         CircuitBreaker.getMetrics CircuitBreaker.m_state
         CircuitBreaker.m_failureCount].
    rewrite Hopen, Hcnt, Hreq, Hfail, Herr. cbn. repeat split.
Qed.

Lemma failures_block_requests_witness :
  let src :=
    SourceConfig.mk "feed" "Feed" "http://example.com/rss" TyRss None None 50 true in
  let s := recordFailures "feed"
             [(1, "e"); (2, "e"); (3, "e"); (4, "Test Error")]
             (registerSource 0 src (new (mkConfig 3 1000 3))) in
  (canRequest 1003 "feed" s).1 = false /\
  (SourceHealth.circuitState <$> getSourceHealth "feed" s) = Some OPEN.
Proof.
  intros src s.
  assert (Hthr : 3 <= 4) by (vm_compute; discriminate).
  assert (Hnow : 1003 < 4 + 1000) by (vm_compute; reflexivity).
  destruct (failures_block_requests (new (mkConfig 3 1000 3)) src 0
              [(1, "e"); (2, "e"); (3, "e")] 4 "Test Error" 1003
              eq_refl Hthr Hnow) as (Hcan & h & Hh & _ & Hopen & _).
  split.
  - exact (f_equal fst Hcan).
  - transitivity (SourceHealth.circuitState <$> Some h);
      [exact (f_equal (fmap SourceHealth.circuitState) Hh)|].
    cbn. by rewrite Hopen.
Defined.

(** X9. Registering is idempotent per id: a second [registerSource] with
    the same id, even with another name, url or clock reading, changes
    nothing; the breaker, the statistics and the stored configuration of
    the first registration stay. *)
Theorem registerSource_twice
    (s : t) (src1 src2 : SourceConfig.t) (t1 t2 : Z) :
  SourceConfig.id src2 = SourceConfig.id src1 ->
  registerSource t2 src2 (registerSource t1 src1 s)
  = registerSource t1 src1 s.
Proof.
  intros Hid. unfold registerSource at 1. rewrite Hid.
  destruct (circuitBreakers (registerSource t1 src1 s) !! SourceConfig.id src1)
    eqn:E; [reflexivity|].
  unfold registerSource in E.
  destruct (circuitBreakers s !! SourceConfig.id src1) eqn:E1.
  - congruence.
  - cbn in E. by rewrite lookup_insert_eq in E.
Qed.

Lemma registerSource_twice_witness :
  let a := SourceConfig.mk "feed" "Feed" "http://a.example" TyRss None None 50 true in
  let b := SourceConfig.mk "feed" "Renamed" "http://b.example" TyJson None None 1 false in
  let s := registerSource 0 a (new (mkConfig 3 1000 3)) in
  registerSource 9 b s = s /\
  (SourceConfig.name <$> sourceConfigs (registerSource 9 b s) !! "feed")
  = Some "Feed".
Proof.
  intros a b s.
  pose proof (registerSource_twice (new (mkConfig 3 1000 3)) a b 0 9 eq_refl) as H.
  fold s in H. split; [exact H|]. rewrite H. vm_compute. reflexivity.
Defined.

(** X10. In any state the service can reach, registering a source whose
    id is free and unregistering it again restores the service exactly:
    maps, configuration and notifications sent. *)
Theorem register_unregister_roundtrip
    (cfg : CircuitBreakerConfig) (history : list (Z * call))
    (src : SourceConfig.t) (now : Z) :
  let s := run history (new cfg) in
  circuitBreakers s !! SourceConfig.id src = None ->
  unregisterSource (SourceConfig.id src) (registerSource now src s) = s.
Proof.
  intros s Hfree.
  pose proof (run_well_formed history _ (new_well_formed cfg)) as Hwf.
  fold s in Hwf. destruct (Hwf (SourceConfig.id src)) as (H1 & H2 & _).
  unfold registerSource. rewrite Hfree. unfold unregisterSource.
  cbn [circuitBreakers sourceStats sourceConfigs config emitted].
  rewrite !delete_insert_eq.
  rewrite !delete_id by (first [exact Hfree | by apply H1 | by apply H2]).
  by destruct s.
Qed.

Lemma register_unregister_roundtrip_witness :
  let a := SourceConfig.mk "a" "A" "http://a.example" TyRss None None 50 true in
  let b := SourceConfig.mk "b" "B" "http://b.example" TyRss None None 50 true in
  let s := run [(0, CallRegisterSource a); (1, CallRecordFailure "a" "x")]
             (new (mkConfig 3 1000 3)) in
  unregisterSource "b" (registerSource 2 b s) = s.
Proof.
  intros a b s.
  apply (register_unregister_roundtrip (mkConfig 3 1000 3)
           [(0, CallRegisterSource a); (1, CallRecordFailure "a" "x")] b 2).
  vm_compute. reflexivity.
Defined.

(** Every public call keeps the request counters in order. *)
Lemma step_counts_ok s c : counts_ok s -> counts_ok (step s c).
Proof.
  destruct c as [now op]. intros Hok.
  destruct op as [src|sid|sid|sid lat|sid e|sid|sid]; cbn [step].
  - unfold registerSource.
    destruct (circuitBreakers s !! SourceConfig.id src); [exact Hok|].
    intros sid0 st0. cbn [sourceStats].
    destruct (decide (SourceConfig.id src = sid0)) as [->|Hne].
    + rewrite lookup_insert_eq. intros [= <-]. cbn. lia.
    + rewrite lookup_insert_ne by done. apply Hok.
  - intros sid0 st0. unfold unregisterSource. cbn [sourceStats].
    destruct (decide (sid = sid0)) as [->|Hne].
    + by rewrite lookup_delete_eq.
    + rewrite lookup_delete_ne by done. apply Hok.
  - unfold canRequest. destruct (circuitBreakers s !! sid); [|exact Hok].
    destruct (CircuitBreaker.canExecute now _). exact Hok.
  - unfold recordSuccess.
    destruct (circuitBreakers s !! sid); [|exact Hok].
    destruct (sourceStats s !! sid) as [st|] eqn:Est; [|exact Hok].
    intros sid0 st0. cbn [emit set_stats set_breaker sourceStats].
    destruct (decide (sid = sid0)) as [->|Hne].
    + rewrite lookup_insert_eq. intros [= <-]. cbn.
      pose proof (Hok _ _ Est). lia.
    + rewrite lookup_insert_ne by done. apply Hok.
  - unfold recordFailure.
    destruct (circuitBreakers s !! sid); [|exact Hok].
    destruct (sourceStats s !! sid) as [st|] eqn:Est; [|exact Hok].
    intros sid0 st0.
    destruct (bool_decide _); cbn [emit set_stats set_breaker sourceStats].
    all: destruct (decide (sid = sid0)) as [->|Hne];
      [ rewrite lookup_insert_eq; intros [= <-]; cbn;
        pose proof (Hok _ _ Est); lia
      | rewrite lookup_insert_ne by done; apply Hok ].
  - exact Hok.
  - unfold resetSource. destruct (circuitBreakers s !! sid); exact Hok.
Qed.

Lemma run_counts_ok calls s : counts_ok s -> counts_ok (run calls s).
Proof.
  revert s. induction calls as [|c calls IH]; intros s Hok; [exact Hok|].
  cbn [run foldl]. apply IH, step_counts_ok, Hok.
Qed.

(** The quotient computed for [uptime], between its bounds. *)
Lemma uptime_bounds (requests failures : Z) :
  0 <= failures <= requests -> 0 < requests ->
  let u := (inject_Z (requests - failures) / inject_Z requests * 100)%Q in
  (0 <= u)%Q /\ (u <= 100)%Q /\
  (failures = requests -> (u == 0)%Q) /\
  (failures = 0 -> (u == 100)%Q).
Proof.
  intros Hf Hr. destruct requests as [|p|p]; try lia.
  cbn zeta.
  unfold Qle, Qeq, Qdiv, Qmult, Qinv, inject_Z. cbn [Qnum Qden].
  repeat split; intros; subst; cbn; try lia; try nia.
Qed.

(** X11. In any state the service can reach, every source's
    [totalFailures] lies between zero and its [totalRequests], and the
    [uptime] that [getSourceHealth] reports lies between 0 and 100: it is
    exactly 100 when nothing was requested, 100 when nothing failed, and
    0 when every request failed. *)
Theorem uptime_is_a_percentage
    (cfg : CircuitBreakerConfig) (history : list (Z * call))
    (sid : string) (h : SourceHealth.t) :
  getSourceHealth sid (run history (new cfg)) = Some h ->
  0 <= SourceHealth.totalFailures h <= SourceHealth.totalRequests h /\
  (0 <= SourceHealth.uptime h)%Q /\ (SourceHealth.uptime h <= 100)%Q /\
  (SourceHealth.totalRequests h = 0 -> SourceHealth.uptime h = 100%Q) /\
  (SourceHealth.totalFailures h = 0 -> (SourceHealth.uptime h == 100)%Q) /\
  (0 < SourceHealth.totalRequests h ->
   SourceHealth.totalFailures h = SourceHealth.totalRequests h ->
   (SourceHealth.uptime h == 0)%Q).
Proof.
  set (s := run history (new cfg)).
  assert (Hok : counts_ok s).
  { apply run_counts_ok. intros sid0 st0. cbn. by rewrite lookup_empty. }
  unfold getSourceHealth.
  destruct (circuitBreakers s !! sid) as [b|]; [|discriminate].
  destruct (sourceStats s !! sid) as [st|] eqn:Est; [|discriminate].
  destruct (sourceConfigs s !! sid) as [c|]; [|discriminate].
  intros [= <-]. cbn [SourceHealth.totalFailures SourceHealth.totalRequests
                      SourceHealth.uptime].
  pose proof (Hok _ _ Est) as Hc. split; [exact Hc|].
  case_bool_decide as Hpos.
  - destruct (uptime_bounds _ _ Hc Hpos) as (H1 & H2 & H3 & H4).
    repeat split; auto; lia.
  - repeat split; try reflexivity; try lia; unfold Qle; cbn; lia.
Qed.

Lemma uptime_is_a_percentage_witness :
  let src :=
    SourceConfig.mk "feed" "Feed" "http://example.com/rss" TyRss None None 50 true in
  let s := run [(0, CallRegisterSource src);
                (1, CallRecordFailure "feed" "e");
                (2, CallRecordSuccess "feed" (Some 80));
                (3, CallRecordFailure "feed" "e")] (new (mkConfig 3 1000 3)) in
  exists h, getSourceHealth "feed" s = Some h /\
            (0 <= SourceHealth.uptime h)%Q /\ (SourceHealth.uptime h <= 100)%Q.
Proof.
  intros src s.
  destruct (getSourceHealth "feed" s) as [h|] eqn:E; [|vm_compute in E; discriminate].
  exists h. split; [reflexivity|].
  destruct (uptime_is_a_percentage (mkConfig 3 1000 3)
              [(0, CallRegisterSource src);
               (1, CallRecordFailure "feed" "e");
               (2, CallRecordSuccess "feed" (Some 80));
               (3, CallRecordFailure "feed" "e")] "feed" h E)
    as (_ & H1 & H2 & _).
  split; assumption.
Defined.

(** X12. [resetSource] on an id without breaker answers [false] and
    changes nothing.  On a registered source it answers [true], sends
    [circuit:closed], and the source is then reported [healthy] with the
    circuit [CLOSED] and both streaks zero, whatever the breaker was;
    the request statistics are not touched, so totals, last error and
    uptime are as before. *)
Theorem resetSource_effect (s : t) (sid : string) (now : Z) :
  (circuitBreakers s !! sid = None -> resetSource now sid s = (false, s)) /\
  (forall h,
     getSourceHealth sid s = Some h ->
     let s' := (resetSource now sid s).2 in
     (resetSource now sid s).1 = true /\
     emitted s' = emitted s ++ [circuit_closed sid] /\
     sourceStats s' = sourceStats s /\
     getSourceHealth sid s' =
       Some {| SourceHealth.sourceId := SourceHealth.sourceId h;
               SourceHealth.sourceName := SourceHealth.sourceName h;
               SourceHealth.status := HEALTHY;
               SourceHealth.circuitState := CLOSED;
               SourceHealth.consecutiveFailures := 0;
               SourceHealth.consecutiveSuccesses := 0;
               SourceHealth.lastSuccess := SourceHealth.lastSuccess h;
               SourceHealth.lastFailure := SourceHealth.lastFailure h;
               SourceHealth.lastError := SourceHealth.lastError h;
               SourceHealth.totalRequests := SourceHealth.totalRequests h;
               SourceHealth.totalFailures := SourceHealth.totalFailures h;
               SourceHealth.uptime := SourceHealth.uptime h;
               SourceHealth.responseTimeMs := SourceHealth.responseTimeMs h |}).
Proof.
  split.
  - intros Hnone. unfold resetSource. by rewrite Hnone.
  - intros h. unfold getSourceHealth at 1, resetSource.
    destruct (circuitBreakers s !! sid) as [b|] eqn:Eb; [|discriminate].
    destruct (sourceStats s !! sid) as [st|] eqn:Est; [|discriminate].
    destruct (sourceConfigs s !! sid) as [c|] eqn:Ec; [|discriminate].
    intros [= <-]. cbn [fst snd].
    split; [reflexivity|]. split; [reflexivity|]. split; [reflexivity|].
    unfold getSourceHealth.
    cbn [emit set_breaker circuitBreakers sourceStats sourceConfigs].
    rewrite lookup_insert_eq, Est, Ec.
    by destruct b.
Qed.

Lemma resetSource_effect_witness :
  let src :=
    SourceConfig.mk "feed" "Feed" "http://example.com/rss" TyRss None None 50 true in
  let s := recordFailures "feed" [(1, "e"); (2, "e"); (3, "e"); (4, "e")]
             (registerSource 0 src (new (mkConfig 3 60000 2))) in
  resetSource 9 "ghost" s = (false, s) /\
  (SourceHealth.status <$> getSourceHealth "feed" s) = Some UNHEALTHY /\
  (SourceHealth.status <$> getSourceHealth "feed" (resetSource 9 "feed" s).2)
  = Some HEALTHY /\
  (SourceHealth.totalFailures
     <$> getSourceHealth "feed" (resetSource 9 "feed" s).2) = Some 4.
Proof.
  intros src s.
  destruct (resetSource_effect s "ghost" 9) as [Hghost _].
  destruct (resetSource_effect s "feed" 9) as [_ Hfeed].
  destruct (getSourceHealth "feed" s) as [h|] eqn:E;
    [|vm_compute in E; discriminate].
  destruct (Hfeed h eq_refl) as (_ & _ & _ & Hh).
  split; [apply Hghost; vm_compute; reflexivity|].
  split; [vm_compute in E; injection E as <-; reflexivity|].
  rewrite Hh. split; [reflexivity|].
  vm_compute in E. injection E as <-. reflexivity.
Defined.

(** The notifications of one run of failures, for a breaker that is
    [CLOSED], or [OPEN] at or above its threshold. *)
Lemma recordFailures_emitted calls sid s b st :
  circuitBreakers s !! sid = Some b ->
  sourceStats s !! sid = Some st ->
  CircuitBreaker.state b = CLOSED \/
  (CircuitBreaker.state b = OPEN /\
   failureThreshold (CircuitBreaker.config b) <= CircuitBreaker.failureCount b) ->
  emitted (recordFailures sid calls s) =
    emitted s ++
    failureLog sid (failureThreshold (CircuitBreaker.config b))
      (CircuitBreaker.failureCount b) calls.
Proof.
  revert s b st. induction calls as [|[now e] calls IH]; intros s b st Hb Hst Hpre.
  - cbn. by rewrite app_nil_r.
  - cbn [recordFailures foldl fst snd failureLog].
    destruct (recordFailure_registered now sid e s b st Hb Hst)
      as (Hb1 & Hst1 & _ & Hem).
    fold (recordFailures sid calls (recordFailure now sid e s)).
    pose proof (BreakerProps.recordFailure_config now e b) as Hc1.
    pose proof (BreakerProps.recordFailure_failureCount now e b) as Hf1.
    pose proof (BreakerProps.recordFailure_state now e b) as Hs1.
    set (b1 := CircuitBreaker.recordFailure now e b) in *.
    assert (Hb1s : CircuitBreaker.state b1 =
              if bool_decide (failureThreshold (CircuitBreaker.config b)
                              <= CircuitBreaker.failureCount b + 1)
              then OPEN else CLOSED).
    { rewrite Hs1. destruct Hpre as [Hc|[Ho Hge]].
      - rewrite Hc. by rewrite bool_decide_eq_false_2 by discriminate.
      - rewrite Ho. rewrite bool_decide_eq_false_2 by discriminate.
        by rewrite bool_decide_eq_true_2 by lia. }
    assert (Hpre1 : CircuitBreaker.state b1 = CLOSED \/
              (CircuitBreaker.state b1 = OPEN /\
               failureThreshold (CircuitBreaker.config b1)
               <= CircuitBreaker.failureCount b1)).
    { rewrite Hc1, Hf1, Hb1s. case_bool_decide; [right | left]; auto. }
    rewrite (IH _ _ _ Hb1 Hst1 Hpre1), Hem, Hb1s, Hc1, Hf1.
    rewrite <- app_assoc. f_equal.
    by case_bool_decide.
Qed.

(** X13. The notifications of a freshly registered source that fails call
    after call: below the threshold each failure sends one
    [source:degraded] carrying the running count; from the threshold on
    every failure, not only the one that opens the circuit, sends
    [source:unhealthy] followed by [circuit:opened]. *)
Theorem failure_notifications
    (s0 : t) (src : SourceConfig.t) (t0 : Z) (calls : list (Z * string)) :
  let sid := SourceConfig.id src in
  circuitBreakers s0 !! sid = None ->
  emitted (recordFailures sid calls (registerSource t0 src s0)) =
    emitted s0 ++ failureLog sid (failureThreshold (config s0)) 0 calls.
Proof.
  intros sid Hfresh.
  set (s1 := registerSource t0 src s0).
  assert (Hb1 : circuitBreakers s1 !! sid
                = Some (CircuitBreaker.new sid (config s0) t0)).
  { unfold s1, registerSource. fold sid. rewrite Hfresh. cbn.
    apply lookup_insert_eq. }
  assert (Hst1 : sourceStats s1 !! sid = Some SourceStats.zero).
  { unfold s1, registerSource. fold sid. rewrite Hfresh. cbn.
    apply lookup_insert_eq. }
  rewrite (recordFailures_emitted calls sid s1 _ _ Hb1 Hst1) by (by left).
  cbn [CircuitBreaker.new CircuitBreaker.config CircuitBreaker.failureCount].
  f_equal. unfold s1, registerSource. fold sid. by rewrite Hfresh.
Qed.

Lemma failure_notifications_witness :
  let src :=
    SourceConfig.mk "feed" "Feed" "http://example.com/rss" TyRss None None 50 true in
  emitted (recordFailures "feed" [(1, "a"); (2, "b"); (3, "c"); (4, "d")]
             (registerSource 0 src (new (mkConfig 3 60000 2))))
  = [source_degraded "feed" 1; source_degraded "feed" 2;
     source_unhealthy "feed" "c"; circuit_opened "feed" "c";
     source_unhealthy "feed" "d"; circuit_opened "feed" "d"].
Proof.
  intros src.
  exact (failure_notifications (new (mkConfig 3 60000 2)) src 0
           [(1, "a"); (2, "b"); (3, "c"); (4, "d")] eq_refl).
Defined.

(** The three status lists partition any list of health records. *)
Lemma withStatus_partition (allHealth : list SourceHealth.t) :
  (length (withStatus HEALTHY allHealth)
   + length (withStatus DEGRADED allHealth)
   + length (withStatus UNHEALTHY allHealth))%nat = length allHealth.
Proof.
  unfold withStatus. induction allHealth as [|h l IH]; [reflexivity|].
  cbn [List.filter length].
  destruct (SourceHealth.status h);
    repeat (case_bool_decide; try congruence); cbn [length]; lia.
Qed.

Lemma withStatus_all status (allHealth : list SourceHealth.t) :
  length (withStatus status allHealth) = length allHealth <->
  Forall (fun h => SourceHealth.status h = status) allHealth.
Proof.
  unfold withStatus. induction allHealth as [|h l IH]; [by split|].
  cbn [List.filter length].
  pose proof (List.filter_length_le
                (fun h => bool_decide (SourceHealth.status h = status)) l) as Hle.
  case_bool_decide as Hs; cbn [length]; split.
  - intros H. constructor; [exact Hs|]. apply IH. lia.
  - intros H. apply Forall_cons in H as [_ H]. apply IH in H. lia.
  - intros H. lia.
  - intros H. apply Forall_cons in H as [H _]. contradiction.
Qed.

Lemma withStatus_none status (allHealth : list SourceHealth.t) :
  length (withStatus status allHealth) = 0%nat <->
  Forall (fun h => SourceHealth.status h <> status) allHealth.
Proof.
  unfold withStatus. induction allHealth as [|h l IH]; [by split|].
  cbn [List.filter length].
  case_bool_decide as Hs; cbn [length]; split.
  - discriminate.
  - intros H. apply Forall_cons in H as [H _]. contradiction.
  - intros H. constructor; [exact Hs|]. by apply IH.
  - intros H. apply Forall_cons in H as [_ H]. by apply IH.
Qed.

(** X14. In the summary the three counts add up to the total, the list
    of sources keeps the length and order of the input, and the overall
    status is [unhealthy] exactly when there is at least one source and
    every source is unhealthy, [healthy] exactly when every source is
    healthy (in particular for no source at all), and [degraded] in all
    other cases. *)
Theorem summary_counts_and_status
    (toFixed1 : Q -> string) (allHealth : list SourceHealth.t) :
  let sum := summarize toFixed1 allHealth in
  (HealthSummary.healthySources sum + HealthSummary.degradedSources sum
   + HealthSummary.unhealthySources sum)%nat = HealthSummary.totalSources sum /\
  HealthSummary.totalSources sum = length allHealth /\
  map HealthSummary.id (HealthSummary.sources sum)
    = map SourceHealth.sourceId allHealth /\
  map HealthSummary.status (HealthSummary.sources sum)
    = map SourceHealth.status allHealth /\
  (HealthSummary.overallStatus sum = UNHEALTHY <->
   allHealth <> [] /\
   Forall (fun h => SourceHealth.status h = UNHEALTHY) allHealth) /\
  (HealthSummary.overallStatus sum = HEALTHY <->
   Forall (fun h => SourceHealth.status h = HEALTHY) allHealth).
Proof.
  cbn zeta. unfold summarize.
  cbn [HealthSummary.healthySources HealthSummary.degradedSources
       HealthSummary.unhealthySources HealthSummary.totalSources
       HealthSummary.sources HealthSummary.overallStatus].
  pose proof (withStatus_partition allHealth) as Hpart.
  pose proof (withStatus_all UNHEALTHY allHealth) as Hall_u.
  pose proof (withStatus_all HEALTHY allHealth) as Hall_h.
  pose proof (withStatus_none UNHEALTHY allHealth) as Hnone_u.
  pose proof (withStatus_none DEGRADED allHealth) as Hnone_d.
  split; [exact Hpart|]. split; [reflexivity|].
  split; [by rewrite map_map|]. split; [by rewrite map_map|].
  split.
  - repeat case_bool_decide; split; try discriminate; try reflexivity.
    + intros _. split; [|by apply Hall_u].
      intros ->. cbn in *. lia.
    + intros [_ Hx]. apply Hall_u in Hx. lia.
    + intros [_ Hx]. apply Hall_u in Hx. lia.
    + intros [Hne Hx]. apply Hall_u in Hx. destruct allHealth; [done|].
      cbn [length] in *. lia.
  - repeat case_bool_decide; split; try discriminate; try reflexivity.
    + intros Hx. apply Hall_h in Hx. lia.
    + intros Hx. apply Hall_h in Hx. lia.
    + intros Hx. apply Hall_h in Hx. lia.
    + intros _. apply Hall_h. lia.
Qed.

End SentinelExtra.

(* ===================================================================== *)
(** * Properties of detection and dispatch *)

Module ParserProps.
Import UniversalParser.

Lemma startsWith_includes p s :
  JS.startsWith p s = true -> JS.includes p s = true.
Proof. intros H. destruct s; cbn [JS.includes]; by rewrite H. Qed.

Lemma find_adapters (f : Adapter -> bool) :
  List.find f adapters =
    if f TheRSSAdapter then Some TheRSSAdapter
    else if f TheJSONAdapter then Some TheJSONAdapter
    else if f TheHTMLAdapter then Some TheHTMLAdapter
    else None.
Proof. reflexivity. Qed.

(** X15. [findAdapter] returns an adapter only if that adapter accepts
    the content, and returns none exactly when no adapter accepts it.
    When some adapter that declares the detected type accepts the
    content, the adapter returned declares the detected type; the type is
    a preference, not a requirement. *)
Theorem findAdapter_accepts
    (content : string) (detectedType : ContentType.t) (header : option string) :
  (findAdapter content detectedType header = None <->
   forall a, canParse a content header = false) /\
  (forall a, findAdapter content detectedType header = Some a ->
     canParse a content header = true /\
     ((exists a', supports a' detectedType = true /\
                  canParse a' content header = true) ->
      supports a detectedType = true)).
Proof.
  unfold findAdapter. rewrite !find_adapters.
  destruct (canParse TheRSSAdapter content header) eqn:Er,
           (canParse TheJSONAdapter content header) eqn:Ej,
           (canParse TheHTMLAdapter content header) eqn:Eh,
           (supports TheRSSAdapter detectedType) eqn:Sr,
           (supports TheJSONAdapter detectedType) eqn:Sj,
           (supports TheHTMLAdapter detectedType) eqn:Sh;
    cbn [andb]; (split; [split|]);
    try discriminate;
    try (intros Hall;
         first [ specialize (Hall TheRSSAdapter); congruence
               | specialize (Hall TheJSONAdapter); congruence
               | specialize (Hall TheHTMLAdapter); congruence ]);
    try (intros _ [| |]; assumption);
    intros a [= <-]; (split; [assumption|]);
    intros ([| |] & Hs & Hc); congruence.
Qed.

Lemma findAdapter_accepts_witness :
  findAdapter "[{}]" ContentType.RSS None = Some TheJSONAdapter /\
  canParse TheJSONAdapter "[{}]" None = true /\
  findAdapter "plain text" ContentType.UNKNOWN None = None.
Proof.
  destruct (findAdapter_accepts "[{}]" ContentType.RSS None) as [_ Hsome].
  destruct (findAdapter_accepts "plain text" ContentType.UNKNOWN None)
    as [[_ Hnone] _].
  split; [reflexivity|]. split.
  - exact (proj1 (Hsome TheJSONAdapter eq_refl)).
  - apply Hnone. intros [| |]; reflexivity.
Defined.

(** What suffices for each adapter to accept. *)
Lemma rss_accepts_header content hd :
  hd <> "" ->
  JS.includes "rss" (JS.toLowerCase hd) || JS.includes "atom" (JS.toLowerCase hd)
  || JS.includes "xml" (JS.toLowerCase hd) = true ->
  RSSAdapter.canParse content (Some hd) = true.
Proof.
  intros Hne H. unfold RSSAdapter.canParse, JS.truthyS.
  rewrite bool_decide_eq_false_2 by exact Hne.
  cbn -[JS.includes JS.toLowerCase JS.trim JS.startsWith]. by rewrite H.
Qed.

Lemma rss_accepts_content content header :
  JS.startsWith "<?xml" (JS.trim content)
  || JS.startsWith "<rss" (JS.trim content)
  || JS.startsWith "<feed" (JS.trim content) = true ->
  RSSAdapter.canParse content header = true.
Proof.
  intros H. unfold RSSAdapter.canParse. cbn zeta.
  apply orb_true_iff. right.
  apply orb_true_iff in H as [H|H]; [apply orb_true_iff in H as [H|H]|].
  - by rewrite H.
  - apply startsWith_includes in H. rewrite H. by rewrite !orb_true_r.
  - apply startsWith_includes in H. rewrite H. by rewrite !orb_true_r.
Qed.

Lemma json_accepts_header content hd :
  JS.includes "json" (JS.toLowerCase hd) = true ->
  JSONAdapter.canParse content (Some hd) = true.
Proof. intros H. unfold JSONAdapter.canParse. by rewrite H. Qed.

Lemma json_accepts_content content header :
  JS.startsWith "[" (JS.trim content) || JS.startsWith "{" (JS.trim content) = true ->
  JSONAdapter.canParse content header = true.
Proof.
  intros H. unfold JSONAdapter.canParse. cbn zeta. rewrite H.
  by rewrite orb_true_r.
Qed.

Lemma html_accepts_header content hd :
  JS.includes "html" (JS.toLowerCase hd) = true ->
  HTMLAdapter.canParse content (Some hd) = true.
Proof. intros H. unfold HTMLAdapter.canParse. by rewrite H. Qed.

Lemma html_accepts_content content header :
  JS.startsWith "<!doctype" (JS.toLowerCase (JS.trim content))
  || JS.startsWith "<html" (JS.toLowerCase (JS.trim content)) = true ->
  HTMLAdapter.canParse content header = true.
Proof.
  intros H. unfold HTMLAdapter.canParse. cbn zeta. rewrite H.
  by rewrite orb_true_r.
Qed.

(** The first pass of [findAdapter], per detected format. *)
Lemma findAdapter_feed content t header :
  t = ContentType.RSS \/ t = ContentType.ATOM ->
  RSSAdapter.canParse content header = true ->
  findAdapter content t header = Some TheRSSAdapter.
Proof.
  intros Ht Hc. unfold findAdapter. rewrite find_adapters.
  cbn [canParse]. rewrite Hc. by destruct Ht as [-> | ->].
Qed.

Lemma findAdapter_json content header :
  JSONAdapter.canParse content header = true ->
  findAdapter content ContentType.JSON header = Some TheJSONAdapter.
Proof.
  intros Hc. unfold findAdapter. rewrite find_adapters.
  cbn [canParse]. rewrite Hc. reflexivity.
Qed.

Lemma findAdapter_html content header :
  HTMLAdapter.canParse content header = true ->
  findAdapter content ContentType.HTML header = Some TheHTMLAdapter.
Proof.
  intros Hc. unfold findAdapter. rewrite find_adapters.
  cbn [canParse]. rewrite Hc. reflexivity.
Qed.

(** What sniffing the content alone yields is accepted. *)
Lemma sniffed_type_has_adapter content header (t : ContentType.t) :
  (let trimmed := JS.trim content in
   if JS.startsWith "<?xml" trimmed || JS.startsWith "<rss" trimmed
      || JS.startsWith "<feed" trimmed
   then if JS.includes "<feed" trimmed
        then ContentType.ATOM else ContentType.RSS
   else if JS.startsWith "[" trimmed || JS.startsWith "{" trimmed
   then ContentType.JSON
   else if JS.startsWith "<!doctype" (JS.toLowerCase trimmed)
           || JS.startsWith "<html" (JS.toLowerCase trimmed)
   then ContentType.HTML
   else ContentType.UNKNOWN) = t ->
  t <> ContentType.UNKNOWN ->
  exists a, findAdapter content t header = Some a /\
            supports a t = true /\ canParse a content header = true.
Proof.
  cbn zeta. intros Ht Hne.
  destruct (_ || _ || _) eqn:Efeed in Ht.
  { pose proof (rss_accepts_content content header Efeed) as Hc.
    exists TheRSSAdapter. split.
    - apply findAdapter_feed; [|exact Hc].
      destruct (JS.includes "<feed" _) in Ht; subst t; auto.
    - split; [|exact Hc]. destruct (JS.includes "<feed" _) in Ht; by subst t. }
  destruct (_ || _) eqn:Ejson in Ht.
  { pose proof (json_accepts_content content header Ejson) as Hc. subst t.
    exists TheJSONAdapter. split; [by apply findAdapter_json|]. by split. }
  destruct (_ || _) eqn:Ehtml in Ht.
  { pose proof (html_accepts_content content header Ehtml) as Hc. subst t.
    exists TheHTMLAdapter. split; [by apply findAdapter_html|]. by split. }
  congruence.
Qed.

(** X16. Detection and dispatch agree: whenever [detectContentType]
    names a format for a payload and header, [findAdapter], given that
    format, finds an adapter in its first pass, one that declares the
    format and accepts the content.  So a source of type [auto] gets no
    adapter only if nothing was detected. *)
Theorem detected_type_has_adapter
    (content : string) (header : option string) :
  let detected := detectContentType content header in
  detected <> ContentType.UNKNOWN ->
  exists a, findAdapter content detected header = Some a /\
            supports a detected = true /\
            canParse a content header = true.
Proof.
  cbn zeta. unfold detectContentType. cbn zeta.
  destruct header as [hd|]; cbn [JS.truthyS from_option Datatypes.id];
    [|by apply sniffed_type_has_adapter].
  case_bool_decide as Ehd; cbn [negb];
    [by apply sniffed_type_has_adapter|].
  destruct (JS.includes "rss" _ || JS.includes "atom" _) eqn:Efeed.
  { intros _. exists TheRSSAdapter.
    assert (Hc : RSSAdapter.canParse content (Some hd) = true)
      by (apply rss_accepts_header; [exact Ehd | by rewrite Efeed]).
    split; [apply findAdapter_feed; auto|]. by split. }
  destruct (JS.includes "json" _) eqn:Ejson.
  { intros _. exists TheJSONAdapter.
    pose proof (json_accepts_header content hd Ejson) as Hc.
    split; [by apply findAdapter_json|]. by split. }
  destruct (JS.includes "html" _) eqn:Ehtml.
  { intros _. exists TheHTMLAdapter.
    pose proof (html_accepts_header content hd Ehtml) as Hc.
    split; [by apply findAdapter_html|]. by split. }
  destruct (JS.includes "xml" _) eqn:Exml;
    [|by apply sniffed_type_has_adapter].
  intros _. exists TheRSSAdapter.
  assert (Hc : RSSAdapter.canParse content (Some hd) = true)
    by (apply rss_accepts_header; [exact Ehd | by rewrite Exml, orb_true_r]).
  split.
  - apply findAdapter_feed; [|exact Hc]. destruct (JS.includes "<feed" content); auto.
  - split; [|exact Hc]. by destruct (JS.includes "<feed" content).
Qed.

Lemma detected_type_has_adapter_witness :
  detectContentType "<?xml version='1.0'?><feed></feed>" None = ContentType.ATOM /\
  findAdapter "<?xml version='1.0'?><feed></feed>" ContentType.ATOM None
  = Some TheRSSAdapter.
Proof.
  split; [vm_compute; reflexivity|].
  destruct (detected_type_has_adapter "<?xml version='1.0'?><feed></feed>" None)
    as (a & Ha & Hs & _); [vm_compute; discriminate|].
  replace (detectContentType "<?xml version='1.0'?><feed></feed>" None)
    with ContentType.ATOM in Ha, Hs by (vm_compute; reflexivity).
  rewrite Ha. f_equal. destruct a; [reflexivity | | ]; vm_compute in Hs; discriminate.
Defined.

End ParserProps.

(* ===================================================================== *)
(** * Further properties of the adapters *)

Module AdapterExtra.

(** ** The hash *)

Lemma toInt32_range z : -2147483648 <= JS.toInt32 z < 2147483648.
Proof.
  unfold JS.toInt32.
  pose proof (Z.mod_pos_bound (z + 2147483648) 4294967296 ltac:(lia)). lia.
Qed.

Lemma toInt32_small z :
  -2147483648 <= z < 2147483648 -> JS.toInt32 z = z.
Proof. intros H. unfold JS.toInt32. rewrite Z.mod_small by lia. lia. Qed.

Lemma toInt32_shift z k : JS.toInt32 (z + k * 4294967296) = JS.toInt32 z.
Proof.
  unfold JS.toInt32.
  replace (z + k * 4294967296 + 2147483648)
    with (z + 2147483648 + k * 4294967296) by lia.
  by rewrite Z_mod_plus_full.
Qed.

Lemma toInt32_wraps z : exists k, JS.toInt32 z = z + k * 4294967296.
Proof.
  exists (- ((z + 2147483648) / 4294967296)). unfold JS.toInt32.
  pose proof (Z.div_mod (z + 2147483648) 4294967296 ltac:(lia)). lia.
Qed.

(** Same residue, same 32-bit value. *)
Lemma toInt32_congr x y k :
  x = y + k * 4294967296 -> JS.toInt32 x = JS.toInt32 y.
Proof. intros ->. apply toInt32_shift. Qed.

(** One round of the loop multiplies by 31 and adds the code unit, in
    32-bit arithmetic. *)
Lemma hashStep_31 h c : JS.hashStep h c = JS.toInt32 (31 * h + JS.charCode c).
Proof.
  unfold JS.hashStep. cbn zeta. rewrite Z.land_diag.
  rewrite (toInt32_small (JS.toInt32 _)) by apply toInt32_range.
  rewrite Z.shiftl_mul_pow2 by lia.
  destruct (toInt32_wraps h) as [k1 Hk1]. rewrite Hk1.
  destruct (toInt32_wraps ((h + k1 * 4294967296) * 2 ^ 5)) as [k2 Hk2].
  rewrite Hk2. apply (toInt32_congr _ _ (32 * k1 + k2)).
  change (2 ^ 5) with 32. lia.
Qed.

Lemma hashLoop_horner_list h l :
  JS.toInt32 (foldl JS.hashStep h l)
  = JS.toInt32 (foldl (fun acc c => 31 * acc + JS.charCode c) h l).
Proof.
  induction l as [|c l IH] using rev_ind; [reflexivity|].
  rewrite !foldl_snoc, hashStep_31.
  rewrite toInt32_small by apply toInt32_range.
  destruct (toInt32_wraps (foldl JS.hashStep h l)) as [k1 H1].
  destruct (toInt32_wraps (foldl (fun acc c => 31 * acc + JS.charCode c) h l))
    as [k2 H2].
  rewrite H1, H2 in IH.
  apply (toInt32_congr _ _ (31 * (k2 - k1))). lia.
Qed.

Lemma hashLoop_range h s :
  -2147483648 <= h < 2147483648 ->
  -2147483648 <= JS.hashLoop h s < 2147483648.
Proof.
  intros Hh. unfold JS.hashLoop.
  induction (String.list_ascii_of_string s) as [|c l IH] using rev_ind;
    [exact Hh|].
  rewrite foldl_snoc, hashStep_31. apply toInt32_range.
Qed.

(** X17. The hash behind the generated identifiers is the polynomial
    hash with multiplier 31 over the code units, reduced to a signed
    32-bit integer; so the number printed after the prefix is at most
    2147483648. *)
Theorem hash_is_polynomial_mod_2_32 (prefix str : string) :
  JS.hashLoop 0 str = JS.toInt32 (JS.horner 0 str) /\
  0 <= Z.abs (JS.hashLoop 0 str) <= 2147483648 /\
  JS.hashWith prefix str
  = prefix +:+ pretty (Z.abs (JS.toInt32 (JS.horner 0 str))).
Proof.
  assert (H : JS.hashLoop 0 str = JS.toInt32 (JS.horner 0 str)).
  { rewrite <- (toInt32_small (JS.hashLoop 0 str))
      by (apply hashLoop_range; lia).
    apply hashLoop_horner_list. }
  split; [exact H|]. split.
  - pose proof (hashLoop_range 0 str ltac:(lia)). lia.
  - unfold JS.hashWith. by rewrite H.
Qed.

Lemma list_ascii_of_string_app s1 s2 :
  String.list_ascii_of_string (s1 +:+ s2)
  = String.list_ascii_of_string s1 ++ String.list_ascii_of_string s2.
Proof.
  induction s1 as [|c s1 IH]; [reflexivity|].
  simpl. f_equal. exact IH.
Qed.

Lemma hashLoop_app h s1 s2 :
  JS.hashLoop h (s1 +:+ s2) = JS.hashLoop (JS.hashLoop h s1) s2.
Proof.
  unfold JS.hashLoop. by rewrite list_ascii_of_string_app, foldl_app.
Qed.

(** An RSS item that has a title and nothing else. *)
Lemma parseRSSItem_title_only (t : string) :
  t <> "" ->
  RSSAdapter.parseRSSItem [("title", JStr t)]
  = Some {| ItemIdentity.id := RSSAdapter.hashString t;
            ItemIdentity.title := t;
            ItemIdentity.link := "" |}.
Proof.
  intros Hne. unfold RSSAdapter.parseRSSItem.
  change (JS.get (JObj [("title", JStr t)]) "link") with JUndefined.
  change (JS.get (JObj [("title", JStr t)]) "guid") with JUndefined.
  change (JS.get (JObj [("title", JStr t)]) "title") with (JStr t).
  change (RSSAdapter.getString JUndefined) with (@None string).
  assert (Ht : RSSAdapter.getString (JStr t) = Some t).
  { unfold RSSAdapter.getString, JS.truthy.
    by rewrite bool_decide_eq_false_2 by exact Hne. }
  rewrite Ht. unfold JS.or_str, JS.or_opt, JS.truthyS.
  by rewrite bool_decide_eq_false_2 by exact Hne.
Qed.

(** X18. The generated identifiers are not unique: replacing the two
    characters [Aa] by [BB] anywhere in a text leaves its hash, and so
    the identifier made from it, unchanged.  Two RSS items that have no
    [guid] and no link and whose titles differ in this way get the same
    [id]. *)
Theorem hash_ids_collide (p q : string) :
  let t1 := p +:+ "Aa" +:+ q in
  let t2 := p +:+ "BB" +:+ q in
  RSSAdapter.hashString t1 = RSSAdapter.hashString t2 /\
  HTMLAdapter.hashString t1 = HTMLAdapter.hashString t2 /\
  (ItemIdentity.id <$> RSSAdapter.parseRSSItem [("title", JStr t1)])
  = (ItemIdentity.id <$> RSSAdapter.parseRSSItem [("title", JStr t2)]).
Proof.
  cbn zeta.
  assert (H : JS.hashLoop 0 (p +:+ "Aa" +:+ q) = JS.hashLoop 0 (p +:+ "BB" +:+ q)).
  { rewrite !hashLoop_app. f_equal.
    unfold JS.hashLoop. cbn [String.list_ascii_of_string foldl].
    rewrite !hashStep_31.
    set (h := foldl JS.hashStep 0 (String.list_ascii_of_string p)).
    destruct (toInt32_wraps (31 * h + JS.charCode "A")) as [k1 H1].
    destruct (toInt32_wraps (31 * h + JS.charCode "B")) as [k2 H2].
    rewrite H1, H2. apply (toInt32_congr _ _ (31 * (k1 - k2))).
    change (JS.charCode "A") with 65. change (JS.charCode "B") with 66.
    change (JS.charCode "a") with 97. lia. }
  assert (Hr : RSSAdapter.hashString (p +:+ "Aa" +:+ q)
               = RSSAdapter.hashString (p +:+ "BB" +:+ q))
    by (unfold RSSAdapter.hashString, JS.hashWith; by rewrite H).
  split; [exact Hr|]. split.
  - unfold HTMLAdapter.hashString, JS.hashWith. by rewrite H.
  - assert (Hne1 : p +:+ "Aa" +:+ q <> "") by (destruct p; simpl; discriminate).
    assert (Hne2 : p +:+ "BB" +:+ q <> "") by (destruct p; simpl; discriminate).
    rewrite !parseRSSItem_title_only by assumption.
    cbn. f_equal. exact Hr.
Qed.

(** ** The JSON adapter *)






Lemma findArray_none parsed keys :
  Forall (fun k => forall elems, JS.get parsed k <> JArr elems) keys ->
  JSONAdapter.findArray parsed keys = None.
Proof.
  induction 1 as [|k keys Hk _ IH]; [reflexivity|].
  cbn [JSONAdapter.findArray].
  destruct (JS.get parsed k) eqn:E; try exact IH. by destruct (Hk elems).
Qed.

(** X20. What the JSON adapter takes as the raw items of an object
    payload: when no recognised key holds an array the object itself is
    the only raw item; and when [items], the first recognised key, holds
    an empty array, the object itself is again the only raw item, so
    arrays under the other recognised keys are not looked at.  A payload
    that is neither an array nor an object gives no items and still a
    success. *)
Theorem json_object_as_single_item
    (stringify : jsval -> string) (props : list (string * jsval)) :
  (Forall (fun k => forall elems, JS.get (JObj props) k <> JArr elems)
     JSONAdapter.arrayKeys ->
   JSONAdapter.rawItems (JObj props) = ([JObj props], JObj [])) /\
  (JS.get (JObj props) "items" = JArr [] ->
   (JSONAdapter.rawItems (JObj props)).1 = [JObj props]) /\
  (forall parsed,
     JS.is_object parsed = false ->
     ParseResult.items (JSONAdapter.parseValue stringify parsed) = [] /\
     ParseResult.success (JSONAdapter.parseValue stringify parsed) = true).
Proof.
  split; [|split].
  - intros Hnone. unfold JSONAdapter.rawItems.
    by rewrite (findArray_none _ _ Hnone).
  - intros Hitems.
    assert (Hf : JSONAdapter.findArray (JObj props) JSONAdapter.arrayKeys
                 = Some ("items", [])).
    { unfold JSONAdapter.arrayKeys.
      change (JSONAdapter.findArray (JObj props) ("items" :: ?rest))
        with (match JS.get (JObj props) "items" with
              | JArr elems => Some ("items", elems)
              | _ => JSONAdapter.findArray (JObj props) rest
              end).
      by rewrite Hitems. }
    unfold JSONAdapter.rawItems. rewrite Hf. reflexivity.
  - intros parsed Hobj. by destruct parsed.
Qed.

Lemma json_object_as_single_item_witness :
  let stringify := fun _ : jsval => "{}" in
  let wrapper := [("title", JStr "Feed"); ("items", JArr []);
                  ("data", JArr [JObj [("title", JStr "Story")]])] in
  (JSONAdapter.rawItems (JObj wrapper)).1 = [JObj wrapper] /\
  (ItemIdentity.title <$> ParseResult.items
     (JSONAdapter.parseValue stringify (JObj wrapper))) = ["Feed"].
Proof.
  intros stringify wrapper.
  destruct (json_object_as_single_item stringify wrapper) as (_ & Hempty & _).
  split; [apply Hempty; reflexivity | reflexivity].
Defined.

(** X21. In the JSON adapter's field lookup the first key whose value is
    neither undefined nor null decides, even when that value is an empty
    string: the keys after it are not consulted.  The lookup yields
    nothing exactly when every key is undefined or null. *)
Theorem json_getString_first_present
    (obj : jsval) (key : string) (rest : list string) :
  (JS.get obj key <> JUndefined -> JS.get obj key <> JNull ->
   JSONAdapter.getString obj (key :: rest) = JSONAdapter.getString obj [key] /\
   is_Some (JSONAdapter.getString obj (key :: rest))) /\
  (JSONAdapter.getString obj (key :: rest) = None <->
   Forall (fun k => JS.get obj k = JUndefined \/ JS.get obj k = JNull)
     (key :: rest)).
Proof.
  split.
  - intros H1 H2. cbn [JSONAdapter.getString].
    destruct (JS.get obj key); try congruence; split; try reflexivity; eauto;
      destruct (_ && _); eauto.
  - generalize (key :: rest). intros keys.
    induction keys as [|k keys IH]; [by split|].
    cbn [JSONAdapter.getString]. rewrite Forall_cons.
    destruct (JS.get obj k) eqn:E;
      try (rewrite IH; split; [by auto | by intros [_ ?]]);
      (split; [try destruct (_ && _); discriminate
              | intros [[?|?] _]; discriminate]).
Qed.

Lemma json_getString_first_present_witness :
  let stringify := fun _ : jsval => "{}" in
  let obj := JObj [("title", JStr ""); ("name", JStr "Headline")] in
  JSONAdapter.getString obj ["title"; "name"; "headline"] = Some "" /\
  (ItemIdentity.title <$> JSONAdapter.mapToNewsItem stringify
     (JObj [("title", JStr ""); ("name", JStr "Headline");
            ("url", JStr "http://example.com")])) = Some "Untitled".
Proof.
  intros stringify obj.
  destruct (json_getString_first_present obj "title" ["name"; "headline"])
    as [Hfirst _].
  destruct Hfirst as [Heq _]; [discriminate | discriminate |].
  split; [rewrite Heq; reflexivity | reflexivity].
Defined.


(** ** Kept and dropped items *)




(** X23. The HTML adapter drops an element exactly when it has neither a
    non-empty [href] nor a non-empty (trimmed) heading or anchor text.  A
    kept item has a non-empty title, [Untitled] when there is no text;
    its link is empty when there is no [href], and the [href] unchanged
    when that is an absolute http(s) URL or when no base URL is given. *)
Theorem html_item_fields
    (URL_href : string -> string -> option string)
    (element : HTMLAdapter.Element) (baseUrl : option string) :
  let link := JS.or_str (HTMLAdapter.linkEl element ≫= HTMLAdapter.href) "" in
  let title :=
    JS.or_str
      (JS.or_opt (JS.trim <$> HTMLAdapter.titleEl element)
         (JS.trim <$> (HTMLAdapter.anchorText <$> HTMLAdapter.linkEl element)))
      "" in
  (HTMLAdapter.extractItem URL_href element baseUrl = None <->
   link = "" /\ title = "") /\
  (forall n, HTMLAdapter.extractItem URL_href element baseUrl = Some n ->
     ItemIdentity.title n <> "" /\
     (title <> "" -> ItemIdentity.title n = title) /\
     (title = "" -> ItemIdentity.title n = "Untitled") /\
     (link = "" -> ItemIdentity.link n = "") /\
     (JS.startsWith "http://" link || JS.startsWith "https://" link = true ->
      ItemIdentity.link n = link) /\
     (JS.truthyS baseUrl = false -> ItemIdentity.link n = link)).
Proof.
  cbn zeta. unfold HTMLAdapter.extractItem. cbn zeta.
  set (l := JS.or_str (HTMLAdapter.linkEl element ≫= HTMLAdapter.href) "").
  set (t := JS.or_str _ "").
  split.
  - do 2 case_bool_decide; cbn [andb]; split;
      try discriminate; try reflexivity; try tauto.
  - intros n. destruct (_ && _); [discriminate|]. intros [= <-].
    cbn [ItemIdentity.title ItemIdentity.link]. unfold HTMLAdapter.resolveUrl.
    split; [case_bool_decide; [discriminate | assumption]|].
    split; [intros Hx; by case_bool_decide|].
    split; [intros Hx; by case_bool_decide|].
    split; [intros Hx; by case_bool_decide|].
    split.
    + intros Hx. rewrite Hx. by case_bool_decide.
    + intros Hx. rewrite Hx. case_bool_decide; [done|].
      by destruct (_ || _).
Qed.

Lemma html_item_fields_witness :
  let element :=
    HTMLAdapter.mkElement (Some (HTMLAdapter.mkAnchor (Some "/story/1") "  "))
      None in
  (ItemIdentity.title
     <$> HTMLAdapter.extractItem (fun _ _ => None) element None) = Some "Untitled" /\
  (ItemIdentity.link
     <$> HTMLAdapter.extractItem (fun _ _ => None) element None) = Some "/story/1".
Proof.
  intros element.
  destruct (html_item_fields (fun _ _ => None) element None) as [_ Hkept].
  destruct (HTMLAdapter.extractItem (fun _ _ => None) element None)
    as [n|] eqn:E; [|discriminate E].
  destruct (Hkept n eq_refl) as (_ & _ & Ht & _ & _ & Hl).
  cbn. split; f_equal; [apply Ht | apply Hl]; reflexivity.
Defined.

End AdapterExtra.

(* ===================================================================== *)
(** * Properties of configuration changes *)

Module ConfigProps.
Import ConfigLoader.
Import OmniWireServer.

Lemma elem_of_ids (sid : string) (sources : list SourceConfig.t) :
  sid ∈ map SourceConfig.id sources <->
  exists s, s ∈ sources /\ SourceConfig.id s = sid.
Proof.
  rewrite list_elem_of_In, in_map_iff. split.
  - intros (s & Hid & Hin). exists s. by rewrite list_elem_of_In.
  - intros (s & Hin & Hid). exists s. by rewrite <- list_elem_of_In.
Qed.

Lemma elem_of_ids_filter (sid : string) (f : SourceConfig.t -> bool) sources :
  sid ∈ map SourceConfig.id (List.filter f sources) <->
  exists s, s ∈ sources /\ f s = true /\ SourceConfig.id s = sid.
Proof.
  rewrite elem_of_ids. split.
  - intros (s & Hin & Hid). apply list_elem_of_In, filter_In in Hin as [Hin Hf].
    exists s. by rewrite list_elem_of_In.
  - intros (s & Hin & Hf & Hid). exists s. split; [|exact Hid].
    apply list_elem_of_In, filter_In. by rewrite <- list_elem_of_In.
Qed.

Lemma getAddedSources_spec prev curr sid :
  sid ∈ getAddedSources prev curr <->
  sid ∈ map SourceConfig.id curr /\ sid ∉ map SourceConfig.id prev.
Proof.
  unfold getAddedSources. cbn zeta. rewrite elem_of_ids_filter, elem_of_ids.
  split.
  - intros (s & Hin & Hf & Hid). subst sid. split; [eauto|].
    apply negb_true_iff, bool_decide_eq_false_1 in Hf. exact Hf.
  - intros ((s & Hin & Hid) & Hnot). exists s. subst sid.
    repeat split; auto. apply negb_true_iff. by apply bool_decide_eq_false_2.
Qed.

Lemma getRemovedSources_spec prev curr sid :
  sid ∈ getRemovedSources prev curr <->
  sid ∈ map SourceConfig.id prev /\ sid ∉ map SourceConfig.id curr.
Proof. apply (getAddedSources_spec curr prev sid). Qed.

(** X24. Between two configurations, the ids reported as added are
    exactly those of the new sources that no old source has, the ids
    reported as removed exactly those of the old sources that no new
    source has; no id is reported both ways, and a source whose id stays
    is reported in neither list, whatever else about it changed. *)
Theorem config_diff_by_id (prev curr : list SourceConfig.t) (sid : string) :
  (sid ∈ getAddedSources prev curr <->
   sid ∈ map SourceConfig.id curr /\ sid ∉ map SourceConfig.id prev) /\
  (sid ∈ getRemovedSources prev curr <->
   sid ∈ map SourceConfig.id prev /\ sid ∉ map SourceConfig.id curr) /\
  (~ (sid ∈ getAddedSources prev curr /\ sid ∈ getRemovedSources prev curr)) /\
  (sid ∈ map SourceConfig.id prev -> sid ∈ map SourceConfig.id curr ->
   (sid ∉ getAddedSources prev curr) /\ (sid ∉ getRemovedSources prev curr)).
Proof.
  pose proof (getAddedSources_spec prev curr sid) as Ha.
  pose proof (getRemovedSources_spec prev curr sid) as Hr.
  split; [exact Ha|]. split; [exact Hr|]. split.
  - intros [H1 H2]. apply Ha in H1. apply Hr in H2. tauto.
  - intros Hp Hc. split; intros H; [apply Ha in H | apply Hr in H]; tauto.
Qed.

(** Registered ids after the two loops of the listener. *)
Lemma registered_after_registering now (f : SourceConfig.t -> bool) sources s sid :
  is_Some (SentinelService.circuitBreakers
             (foldl (fun s source =>
                       if f source
                       then SentinelService.registerSource now source s else s)
                    s sources) !! sid) <->
  is_Some (SentinelService.circuitBreakers s !! sid) \/
  exists source, source ∈ sources /\ f source = true
                 /\ SourceConfig.id source = sid.
Proof.
  revert s. induction sources as [|src sources IH]; intros s.
  - cbn. split; [auto|]. intros [H|(x & Hx & _)]; [exact H|].
    by apply not_elem_of_nil in Hx.
  - cbn [foldl]. rewrite IH. clear IH.
    assert (Hreg : is_Some (SentinelService.circuitBreakers
                     (SentinelService.registerSource now src s) !! sid) <->
                   is_Some (SentinelService.circuitBreakers s !! sid)
                   \/ SourceConfig.id src = sid).
    { unfold SentinelService.registerSource.
      destruct (SentinelService.circuitBreakers s !! SourceConfig.id src) eqn:E.
      - split; [auto|]. intros [H|<-]; [exact H|]. rewrite E. eauto.
      - cbn. destruct (decide (SourceConfig.id src = sid)) as [->|Hne].
        + rewrite lookup_insert_eq. split; eauto.
        + rewrite lookup_insert_ne by done. split; [auto|].
          intros [H|H]; [exact H | contradiction]. }
    destruct (f src) eqn:Ef.
    + rewrite Hreg. split.
      * intros [[H|H]|(x & Hx & Hf & Hid)]; eauto.
        -- right. exists src. split; [apply list_elem_of_here|]. auto.
        -- right. exists x. split; [by apply list_elem_of_further|]. auto.
      * intros [H|(x & Hx & Hf & Hid)]; [auto|].
        apply elem_of_cons in Hx as [->|Hx]; [auto|]. right. eauto.
    + split.
      * intros [H|(x & Hx & Hf & Hid)]; [auto|].
        right. exists x. split; [by apply list_elem_of_further|]. auto.
      * intros [H|(x & Hx & Hf & Hid)]; [auto|].
        apply elem_of_cons in Hx as [->|Hx]; [congruence|]. right. eauto.
Qed.

Lemma registered_after_unregistering (ids : list string) s sid :
  is_Some (SentinelService.circuitBreakers
             (foldl (fun s i => SentinelService.unregisterSource i s) s ids)
           !! sid) <->
  is_Some (SentinelService.circuitBreakers s !! sid) /\ sid ∉ ids.
Proof.
  revert s. induction ids as [|i ids IH]; intros s.
  - cbn. split; [intros H; split; [exact H | apply not_elem_of_nil]|tauto].
  - cbn [foldl]. rewrite IH. unfold SentinelService.unregisterSource at 1.
    cbn [SentinelService.circuitBreakers]. rewrite not_elem_of_cons.
    destruct (decide (i = sid)) as [->|Hne].
    + rewrite lookup_delete_eq. split; [intros [[? ?] _]; discriminate | tauto].
    + rewrite lookup_delete_ne by done. split; intros; intuition congruence.
Qed.

(** X25. The listener keeps the registry in step with the configuration
    by id: if the registered ids are those of the old sources, then after
    the listener has run on the change the loader reports, the registered
    ids are those of the new sources. *)
Theorem config_change_reconciles
    (prev curr : list SourceConfig.t) (now : Z) (s : SentinelService.t) :
  (forall sid, is_Some (SentinelService.circuitBreakers s !! sid) <->
               sid ∈ map SourceConfig.id prev) ->
  let s' := onConfigChanged now curr (getAddedSources prev curr)
              (getRemovedSources prev curr) s in
  forall sid, is_Some (SentinelService.circuitBreakers s' !! sid) <->
              sid ∈ map SourceConfig.id curr.
Proof.
  intros Hreg s' sid. unfold s', onConfigChanged.
  rewrite registered_after_unregistering,
    (registered_after_registering now
       (fun source => bool_decide (SourceConfig.id source ∈ getAddedSources prev curr))).
  rewrite Hreg, getRemovedSources_spec.
  destruct (decide (sid ∈ map SourceConfig.id prev)) as [Hp|Hp];
  destruct (decide (sid ∈ map SourceConfig.id curr)) as [Hc|Hc].
  - split; [auto|]. intros _. split; [auto|]. tauto.
  - split; [|contradiction]. intros [_ H]. tauto.
  - split; [auto|]. intros _. split; [|tauto]. right.
    pose proof Hc as Hc'. apply elem_of_ids in Hc' as (src & Hin & Hid).
    exists src. repeat split; auto. apply bool_decide_eq_true_2.
    rewrite Hid. apply getAddedSources_spec. by split.
  - split; [|contradiction]. intros [[H|(src & Hin & _ & Hid)] _]; [contradiction|].
    exfalso. apply Hc, elem_of_ids. eauto.
Qed.

(** The ids registered at start-up are those of the enabled sources. *)
Lemma registered_at_start now sources cfg sid :
  is_Some (SentinelService.circuitBreakers
             (registerEnabled now sources (SentinelService.new cfg)) !! sid) <->
  exists source, source ∈ sources /\ SourceConfig.enabled source = true
                 /\ SourceConfig.id source = sid.
Proof.
  unfold registerEnabled.
  rewrite (registered_after_registering now SourceConfig.enabled).
  cbn [SentinelService.new SentinelService.circuitBreakers].
  rewrite lookup_empty. split; [|auto]. intros [[? ?]|H]; [discriminate | exact H].
Qed.

Lemma config_change_reconciles_witness :
  let a := SourceConfig.mk "a" "A" "http://a.example" TyRss None None 50 true in
  let b := SourceConfig.mk "b" "B" "http://b.example" TyRss None None 50 true in
  let s := registerEnabled 0 [a] (SentinelService.new (mkConfig 3 60000 2)) in
  let s' := onConfigChanged 5 [b] (getAddedSources [a] [b])
              (getRemovedSources [a] [b]) s in
  is_Some (SentinelService.circuitBreakers s' !! "b") /\
  SentinelService.circuitBreakers s' !! "a" = None.
Proof.
  intros a b s s'.
  assert (Hreg : forall sid,
            is_Some (SentinelService.circuitBreakers s !! sid) <->
            sid ∈ map SourceConfig.id [a]).
  { intros sid. unfold s. rewrite registered_at_start, elem_of_ids. split.
    - intros (x & Hx & _ & Hid). eauto.
    - intros (x & Hx & Hid). exists x. repeat split; auto.
      apply list_elem_of_singleton in Hx. by subst x. }
  pose proof (config_change_reconciles [a] [b] 5 s Hreg) as H.
  cbn zeta in H. fold s' in H. split.
  - apply H. cbn. apply list_elem_of_here.
  - destruct (SentinelService.circuitBreakers s' !! "a") eqn:E; [|reflexivity].
    assert (Hin : "a" ∈ map SourceConfig.id [b]) by (apply H; rewrite E; eauto).
    cbn in Hin. apply list_elem_of_singleton in Hin. discriminate.
Defined.



End ConfigProps.

(* ===================================================================== *)
(** * Further properties of the [fetch-news] tool *)

Module FetchExtra.
Import FetchNews.

(** What one [canExecute] answer says about the breaker it leaves. *)
Lemma canExecute_outcome now b :
  ((CircuitBreaker.canExecute now b).1 = true ->
   CircuitBreaker.state (CircuitBreaker.canExecute now b).2 <> OPEN) /\
  (CircuitBreaker.state b <> OPEN -> CircuitBreaker.canExecute now b = (true, b)).
Proof.
  BreakerProps.breaker_open b.
  destruct st, nxt; BreakerProps.breaker_eval; BreakerProps.breaker_cases;
    split; intros; try discriminate; try congruence; reflexivity.
Qed.

(** What one [canRequest] call does to the registry. *)
Lemma canRequest_outcome now sid s :
  let r := SentinelService.canRequest now sid s in
  SentinelService.emitted r.2 = SentinelService.emitted s /\
  SentinelService.sourceStats r.2 = SentinelService.sourceStats s /\
  (r.1 = true ->
   is_Some (SentinelService.circuitBreakers s !! sid) /\
   exists b, SentinelService.circuitBreakers r.2 !! sid = Some b /\
             CircuitBreaker.state b <> OPEN) /\
  (forall sid' b, SentinelService.circuitBreakers s !! sid' = Some b ->
                  CircuitBreaker.state b <> OPEN ->
                  SentinelService.circuitBreakers r.2 !! sid' = Some b).
Proof.
  cbn zeta. unfold SentinelService.canRequest.
  destruct (SentinelService.circuitBreakers s !! sid) as [b|] eqn:Eb.
  - destruct (canExecute_outcome now b) as [Hok Hsame].
    destruct (CircuitBreaker.canExecute now b) as [ok b'] eqn:Ec.
    cbn [fst snd SentinelService.set_breaker SentinelService.emitted
         SentinelService.sourceStats SentinelService.circuitBreakers] in *.
    split; [reflexivity|]. split; [reflexivity|]. split.
    + intros Hr. split; [eauto|]. exists b'.
      rewrite lookup_insert_eq. auto.
    + intros sid' b0 Hb0 Hst. destruct (decide (sid = sid')) as [<-|Hne].
      * rewrite lookup_insert_eq. assert (b0 = b) by congruence. subst b0.
        specialize (Hsame Hst). congruence.
      * by rewrite lookup_insert_ne.
  - cbn [fst snd]. split; [reflexivity|]. split; [reflexivity|].
    split; [discriminate | auto].
Qed.

(** The filter over [canRequest], source by source. *)
Lemma filterCanRequest_outcome now sources s :
  let r := filterCanRequest now sources s in
  SentinelService.emitted r.2 = SentinelService.emitted s /\
  SentinelService.sourceStats r.2 = SentinelService.sourceStats s /\
  Forall (fun source =>
            source ∈ sources /\
            is_Some (SentinelService.circuitBreakers s
                     !! SourceConfig.id source) /\
            exists b, SentinelService.circuitBreakers r.2
                      !! SourceConfig.id source = Some b /\
                      CircuitBreaker.state b <> OPEN) r.1 /\
  (forall sid' b, SentinelService.circuitBreakers s !! sid' = Some b ->
                  CircuitBreaker.state b <> OPEN ->
                  SentinelService.circuitBreakers r.2 !! sid' = Some b).
Proof.
  revert s. induction sources as [|src sources IH]; intros s; cbn zeta.
  - cbn. repeat split; auto.
  - cbn [filterCanRequest].
    destruct (canRequest_outcome now (SourceConfig.id src) s)
      as (He1 & Hs1 & Hok1 & Hkeep1).
    destruct (SentinelService.canRequest now (SourceConfig.id src) s)
      as [ok s1] eqn:E1.
    cbn [fst snd] in *.
    destruct (IH s1) as (He2 & Hs2 & Hall2 & Hkeep2).
    destruct (filterCanRequest now sources s1) as [kept s2] eqn:E2.
    cbn [fst snd] in *.
    split; [congruence|]. split; [congruence|].
    assert (Hrest : Forall (fun source =>
              source ∈ src :: sources /\
              is_Some (SentinelService.circuitBreakers s
                       !! SourceConfig.id source) /\
              exists b, SentinelService.circuitBreakers s2
                        !! SourceConfig.id source = Some b /\
                        CircuitBreaker.state b <> OPEN) kept).
    { eapply Forall_impl; [exact Hall2|]. cbn beta.
      intros x (Hx & Hreg & Hb). split; [by apply list_elem_of_further|].
      split; [|exact Hb].
      destruct Hreg as [b1 Hb1].
      destruct (SentinelService.circuitBreakers s !! SourceConfig.id x) eqn:Ex;
        [eauto|].
      exfalso. clear - E1 Ex Hb1.
      unfold SentinelService.canRequest in E1.
      destruct (SentinelService.circuitBreakers s !! SourceConfig.id src) eqn:Es.
      - destruct (CircuitBreaker.canExecute now _) in E1.
        injection E1 as _ <-. cbn in Hb1.
        destruct (decide (SourceConfig.id src = SourceConfig.id x)) as [Heq|Hne].
        + rewrite Heq in Es. congruence.
        + rewrite lookup_insert_ne in Hb1 by done. congruence.
      - injection E1 as _ <-. congruence. }
    split.
    + destruct ok; [|exact Hrest]. constructor; [|exact Hrest].
      destruct (Hok1 eq_refl) as (Hreg & b & Hb & Hst).
      split; [apply list_elem_of_here|]. split; [exact Hreg|].
      exists b. split; [|exact Hst]. by apply Hkeep2.
    + intros sid' b Hb Hst. apply Hkeep2; [|exact Hst]. by apply Hkeep1.
Qed.

(** X27. The sources that [fetch-news] goes on to fetch are never empty
    and all come from the configuration, are enabled, carry the requested
    id when one was given, are registered, and have a breaker that is not
    [OPEN] once the selection is made.  Selecting sends no notification
    and leaves the request statistics alone. *)
Theorem selected_sources_are_fetchable
    (now : Z) (sources : list SourceConfig.t) (sourceId : option string)
    (sentinel sentinel' : SentinelService.t) (chosen : list SourceConfig.t) :
  selectSources now sources sourceId sentinel = (Selected chosen, sentinel') ->
  chosen <> [] /\
  Forall (fun source =>
            source ∈ sources /\
            SourceConfig.enabled source = true /\
            (JS.truthyS sourceId = true ->
             Some (SourceConfig.id source) = sourceId) /\
            is_Some (SentinelService.circuitBreakers sentinel
                     !! SourceConfig.id source) /\
            exists b, SentinelService.circuitBreakers sentinel'
                      !! SourceConfig.id source = Some b /\
                      CircuitBreaker.state b <> OPEN) chosen /\
  SentinelService.emitted sentinel' = SentinelService.emitted sentinel /\
  SentinelService.sourceStats sentinel' = SentinelService.sourceStats sentinel.
Proof.
  unfold selectSources. cbn zeta.
  set (target := if JS.truthyS sourceId then _ else _).
  destruct (JS.truthyS sourceId && _); [discriminate|].
  destruct (filterCanRequest_outcome now target sentinel) as (He & Hs & Hall & _).
  destruct (filterCanRequest now target sentinel) as [healthy s2].
  cbn [fst snd] in *.
  case_bool_decide as Hlen; [discriminate|]. intros [= <- <-].
  split; [by destruct healthy|]. split; [|by split].
  eapply Forall_impl; [exact Hall|]. cbn beta.
  intros x (Hx & Hreg & Hb).
  assert (Hin : x ∈ sources /\ SourceConfig.enabled x = true /\
                (JS.truthyS sourceId = true ->
                 Some (SourceConfig.id x) = sourceId)).
  { unfold target in Hx. destruct sourceId as [sid|]; cbn [JS.truthyS] in *.
    - destruct (negb (bool_decide (sid = ""))) eqn:Et.
      + apply list_elem_of_In, filter_In in Hx as [Hx Hid].
        apply filter_In in Hx as [Hx Hen]. apply bool_decide_eq_true_1 in Hid.
        rewrite <- list_elem_of_In in Hx. cbn in Hid.
        repeat split; auto. intros _. by rewrite Hid.
      + apply list_elem_of_In, filter_In in Hx as [Hx Hen].
        rewrite <- list_elem_of_In in Hx. repeat split; auto. discriminate.
    - apply list_elem_of_In, filter_In in Hx as [Hx Hen].
      rewrite <- list_elem_of_In in Hx. repeat split; auto. discriminate. }
  destruct Hin as (H1 & H2 & H3). repeat split; auto.
Qed.

Lemma selected_sources_are_fetchable_witness :
  let a := SourceConfig.mk "a" "A" "http://a.example" TyRss None None 50 true in
  let b := SourceConfig.mk "b" "B" "http://b.example" TyRss None None 50 false in
  let c := SourceConfig.mk "c" "C" "http://c.example" TyRss None None 50 true in
  let s := SentinelService.recordFailures "c" [(1, "e"); (2, "e"); (3, "e")]
             (OmniWireServer.registerEnabled 0 [a; b; c]
                (SentinelService.new (mkConfig 3 60000 2))) in
  (selectSources 10 [a; b; c] None s).1 = Selected [a] /\
  SentinelService.emitted (selectSources 10 [a; b; c] None s).2
  = SentinelService.emitted s /\
  SentinelService.sourceStats (selectSources 10 [a; b; c] None s).2
  = SentinelService.sourceStats s.
Proof.
  intros a b c s.
  destruct (selectSources 10 [a; b; c] None s) as [sel s'] eqn:E.
  assert (Hsel : sel = Selected [a]) by (vm_compute in E; by injection E as <- _).
  subst sel.
  destruct (selected_sources_are_fetchable 10 [a; b; c] None s s' [a] E)
    as (_ & _ & He & Hs).
  split; [reflexivity|]. split; [exact He | exact Hs].
Defined.



End FetchExtra.
